(** * Headline deduplication, clustering and ranking engine

    A shallow embedding of the engine of [src/app/api/headlines/route.ts]
    (URL normalizer, token builder, similarity evaluators, near-duplicate
    classifier, candidate aggregator, ranker and response builder), followed
    by the properties the specification states about it.

    Modelling conventions.
    - A JavaScript string is a [string]: a sequence of code units, here the
      Latin-1 range (one [ascii] per code unit). [toLowerCase], [trim] and
      the regular-expression class [\s] are written out for that range.
    - A JavaScript number is an exact rational ([Q]) or, where the code only
      ever holds integers (lengths, counters, indices, timestamps in
      milliseconds), a [nat] or [Z]. Rounding of doubles is not modelled.
    - A JavaScript [Set<string>] is a duplicate-free list in insertion order
      (the iteration order of [Set]); a [Map<string, number>] is an
      association list.
    - In-place mutation of the aggregated array is explicit state passing:
      [addHeadlineIfUnique] returns the new array together with its boolean.
    - The platform services the engine calls, [new URL(...)], [Date.parse]
      and [Date.now()], are inputs of the model: two section variables and an
      explicit clock argument, which gives the reading of [Date.now()] taken
      while the candidate of a given index is scored. *)

From Stdlib Require Import Bool Arith PeanoNat Lia ZArith QArith Qminmax Lqa.
From Stdlib Require Import List String Ascii.
From Stdlib Require Import Sorting.Sorted Sorting.Permutation.
Import ListNotations.
Local Close Scope Q_scope.
Local Open Scope string_scope.
Local Open Scope list_scope.
Local Open Scope nat_scope.

(** ** JavaScript strings *)

Module JsString.

Definition chars (s : string) : list ascii := list_ascii_of_string s.
Definition str (l : list ascii) : string := string_of_list_ascii l.

(** [\s] of a JavaScript regular expression, which is also what [trim]
    removes: TAB, LF, VT, FF, CR, SPACE and NO-BREAK SPACE. *)
Definition isWhiteSpace (c : ascii) : bool :=
  let n := nat_of_ascii c in
  ((9 <=? n) && (n <=? 13)) || (n =? 32) || (n =? 160).

(** The character class [[a-z0-9]]. *)
Definition isLowerAlnum (c : ascii) : bool :=
  let n := nat_of_ascii c in
  ((97 <=? n) && (n <=? 122)) || ((48 <=? n) && (n <=? 57)).

Definition lowerChar (c : ascii) : ascii :=
  let n := nat_of_ascii c in
  if ((65 <=? n) && (n <=? 90))
     || ((192 <=? n) && (n <=? 222) && negb (n =? 215))
  then ascii_of_nat (n + 32)
  else c.

Fixpoint toLowerCase (s : string) : string :=
  match s with
  | EmptyString => EmptyString
  | String c r => String (lowerChar c) (toLowerCase r)
  end.

Fixpoint dropWhile {A : Type} (p : A -> bool) (l : list A) : list A :=
  match l with
  | [] => []
  | x :: r => if p x then dropWhile p r else l
  end.

Definition dropWhileEnd {A : Type} (p : A -> bool) (l : list A) : list A :=
  rev (dropWhile p (rev l)).

Definition trim (s : string) : string :=
  str (dropWhileEnd isWhiteSpace (dropWhile isWhiteSpace (chars s))).

Definition isSlash (c : ascii) : bool := (nat_of_ascii c =? 47).

(** [s.replace(/\/+$/g, '')]. *)
Definition stripTrailingSlashes (s : string) : string :=
  str (dropWhileEnd isSlash (chars s)).

Fixpoint isPrefix (p l : list ascii) : bool :=
  match p, l with
  | [], _ => true
  | _ :: _, [] => false
  | x :: p', y :: l' => Ascii.eqb x y && isPrefix p' l'
  end.

Definition endsWith (s suffix : string) : bool :=
  isPrefix (rev (chars suffix)) (rev (chars s)).

(** [s.slice(0, -n)] for [n > 0]. *)
Definition dropLast (n : nat) (s : string) : string :=
  substring 0 (String.length s - n) s.

(** Truthiness of a string: it is not empty. *)
Definition nonEmpty (s : string) : bool :=
  match s with
  | EmptyString => false
  | String _ _ => true
  end.

End JsString.

Import JsString.

(** ** JavaScript [Set<string>], in insertion order *)

Module StringSet.

Definition t := list string.

Definition has (s : t) (x : string) : bool := existsb (String.eqb x) s.

Definition add (s : t) (x : string) : t := if has s x then s else s ++ [x].

Definition size (s : t) : nat := List.length s.

Definition addAll (s : t) (xs : list string) : t := fold_left add xs s.

End StringSet.

(** ** Constants *)

Inductive DedupeMode : Type := Default | Strict.

Definition isStrict (mode : DedupeMode) : bool :=
  match mode with
  | Strict => true
  | Default => false
  end.

Definition MAX_TOKEN_COUNT : nat := 64.
Definition TOKEN_MIN_LENGTH_DEFAULT : nat := 3.
Definition TOKEN_MIN_LENGTH_STRICT : nat := 2.
Definition TOKEN_OVERLAP_THRESHOLD_DEFAULT : Q := 7 # 10.
Definition TOKEN_OVERLAP_THRESHOLD_STRICT : Q := 55 # 100.
Definition STRICT_TITLE_SIMILARITY_THRESHOLD : Q := 88 # 100.
Definition RANKING_RECENCY_WEIGHT : Q := 45 # 100.
Definition RANKING_SOURCE_WEIGHT : Q := 2 # 10.
Definition RANKING_TOPIC_WEIGHT : Q := 2 # 10.
Definition RANKING_CLUSTER_WEIGHT : Q := 25 # 100.
Definition CLUSTER_SIZE_FULL_SCORE : Z := 8.
Definition CLUSTER_SOURCES_FULL_SCORE : Z := 5.
Definition MIN_LIMIT : Z := 1.
Definition MAX_LIMIT : Z := 100.
Definition DEFAULT_LIMIT : Z := 5.

(** ** Token builder *)

(** [text.toLowerCase().replace(/[^a-z0-9]+/g, ' ').trim()]; [inRun] tells
    that the previous character already belonged to the run being
    replaced. *)
Fixpoint collapseNonAlnum (inRun : bool) (l : list ascii) : list ascii :=
  match l with
  | [] => []
  | c :: r =>
      if isLowerAlnum c then c :: collapseNonAlnum false r
      else if inRun then collapseNonAlnum true r
      else " "%char :: collapseNonAlnum true r
  end.

Definition normalizeHeadlineText (text : string) : string :=
  trim (str (collapseNonAlnum false (chars (toLowerCase text)))).

Definition getTokenMinLength (mode : DedupeMode) : nat :=
  if isStrict mode then TOKEN_MIN_LENGTH_STRICT else TOKEN_MIN_LENGTH_DEFAULT.

Definition suffixes : list string :=
  [ "ations"; "ation"; "ments"; "ment"; "izing"; "ingly"; "ing"; "ers";
    "er"; "ied"; "ies"; "ed"; "ly"; "es"; "s" ].

(** [base.replace(/'(?:s|re|d)$/g, '')]. *)
Definition stripPossessive (token : string) : string :=
  if endsWith token "'s" then dropLast 2 token
  else if endsWith token "'re" then dropLast 3 token
  else if endsWith token "'d" then dropLast 2 token
  else token.

Definition collapseIesIed (base : string) : string :=
  if endsWith base "ies" && (4 <? String.length base) then
    (dropLast 3 base ++ "y")%string
  else if endsWith base "ied" && (4 <? String.length base) then
    (dropLast 3 base ++ "y")%string
  else base.

(** The [for (const suffix of suffixes)] loop with its [break]. *)
Fixpoint stripFirstSuffix (sufs : list string) (stemmed : string) : string :=
  match sufs with
  | [] => stemmed
  | suffix :: rest =>
      if endsWith stemmed suffix
         && (3 <=? String.length stemmed - String.length suffix)
      then dropLast (String.length suffix) stemmed
      else stripFirstSuffix rest stemmed
  end.

(** The value of [base] and of [stemmed] when the variants are collected. *)
Definition tokenBase (token : string) : string :=
  collapseIesIed (stripPossessive token).

Definition tokenStem (token : string) : string :=
  stripFirstSuffix suffixes (tokenBase token).

Definition normalizeTokenVariants (token : string) (mode : DedupeMode)
  : list string :=
  if negb (isStrict mode) then [token]
  else
    let base := tokenBase token in
    let stemmed := tokenStem token in
    let variants :=
      StringSet.add (StringSet.add (StringSet.add [] token) base) stemmed in
    filter nonEmpty variants.

(** [s.replace(/https?:\/\/\S+/g, ' ')]: a match starts at [http://] or
    [https://] followed by a non-blank character and runs to the next
    blank; [inUrl] tells that the characters read belong to a match. *)
Definition startsUrl (l : list ascii) : bool :=
  match l with
  | "h" :: "t" :: "t" :: "p" :: ":" :: "/" :: "/" :: c :: _ =>
      negb (isWhiteSpace c)
  | "h" :: "t" :: "t" :: "p" :: "s" :: ":" :: "/" :: "/" :: c :: _ =>
      negb (isWhiteSpace c)
  | _ => false
  end%char.

Fixpoint stripUrls (inUrl : bool) (l : list ascii) : list ascii :=
  match l with
  | [] => []
  | c :: r =>
      if inUrl then
        if isWhiteSpace c then c :: stripUrls false r else stripUrls true r
      else if startsUrl l then " "%char :: stripUrls true r
      else c :: stripUrls false r
  end.

(** [s.replace(/[^a-z0-9\s]+/g, ' ')]. *)
Fixpoint collapseSymbols (inRun : bool) (l : list ascii) : list ascii :=
  match l with
  | [] => []
  | c :: r =>
      if isLowerAlnum c || isWhiteSpace c then c :: collapseSymbols false r
      else if inRun then collapseSymbols true r
      else " "%char :: collapseSymbols true r
  end.

(** [s.split(/\s+/)]: [cur] is the piece being read, reversed. *)
Fixpoint splitWhiteSpace (cur : list ascii) (inGap : bool) (l : list ascii)
  : list string :=
  match l with
  | [] => [str (rev cur)]
  | c :: r =>
      if isWhiteSpace c then
        if inGap then splitWhiteSpace [] true r
        else str (rev cur) :: splitWhiteSpace [] true r
      else splitWhiteSpace (c :: cur) false r
  end.

Definition rawTokens (title description : string) (mode : DedupeMode)
  : list string :=
  let combined := (title ++ " " ++ description)%string in
  let minLength := getTokenMinLength mode in
  filter (fun token => minLength <=? String.length token)
    (splitWhiteSpace [] false
       (collapseSymbols false
          (stripUrls false (chars (toLowerCase combined))))).

(** The inner loop over the variants of one token; the boolean tells that
    the cap was reached and the function returned. *)
Fixpoint addVariants (minLength : nat) (variants : list string)
  (tokenSet : StringSet.t) : StringSet.t * bool :=
  match variants with
  | [] => (tokenSet, false)
  | variant :: rest =>
      if negb (nonEmpty variant) || (String.length variant <? minLength)
      then addVariants minLength rest tokenSet
      else
        let tokenSet' := StringSet.add tokenSet variant in
        if MAX_TOKEN_COUNT <=? StringSet.size tokenSet' then (tokenSet', true)
        else addVariants minLength rest tokenSet'
  end.

Fixpoint addTokens (mode : DedupeMode) (tokens : list string)
  (tokenSet : StringSet.t) : StringSet.t :=
  match tokens with
  | [] => tokenSet
  | token :: rest =>
      if negb (nonEmpty token) then addTokens mode rest tokenSet
      else
        let '(tokenSet', full) :=
          addVariants (getTokenMinLength mode)
            (normalizeTokenVariants token mode) tokenSet in
        if full then tokenSet' else addTokens mode rest tokenSet'
  end.

Definition buildTokenSet (title description : string) (mode : DedupeMode)
  : StringSet.t :=
  addTokens mode (rawTokens title description mode) [].

(** ** Data model *)

Module Related.
Record RelatedArticle : Type := mkRelatedArticle {
  title : string;
  description : string;
  url : string;
  source : string;
  publishedAt : string
}.
End Related.

Definition RelatedArticle : Type := Related.RelatedArticle.

Record NormalizedHeadline : Type := mkNormalizedHeadline {
  title : string;
  description : string;
  url : string;
  source : string;
  publishedAt : string;
  queryUsed : option string;
  keyword : option string;
  searchQuery : option string
}.

Record HeadlineCandidate : Type := mkHeadlineCandidate {
  data : NormalizedHeadline;
  normalizedUrl : string;
  normalizedTitle : string;
  tokenSet : StringSet.t;
  normalizedDescription : string;
  related : list RelatedArticle
}.

Record DedupeOptions : Type := mkDedupeOptions {
  mode : DedupeMode;
  excludedUrls : option StringSet.t
}.

(** Truthiness of an optional string field: present and not empty. *)
Definition truthy (field : option string) : bool :=
  match field with
  | Some s => nonEmpty s
  | None => false
  end.

(** ** Similarity evaluators *)

Definition Qnat (n : nat) : Q := inject_Z (Z.of_nat n).

Definition computeTokenOverlapRatio (a b : StringSet.t) : Q :=
  if (StringSet.size a =? 0) || (StringSet.size b =? 0) then 0%Q
  else
    let smaller := if StringSet.size a <=? StringSet.size b then a else b in
    let larger := if StringSet.size a <=? StringSet.size b then b else a in
    let intersection := List.length (filter (StringSet.has larger) smaller) in
    (Qnat intersection / Qnat (Nat.max 1 (StringSet.size smaller)))%Q.

Definition getTokenOverlapThreshold (mode : DedupeMode) : Q :=
  if isStrict mode then TOKEN_OVERLAP_THRESHOLD_STRICT
  else TOKEN_OVERLAP_THRESHOLD_DEFAULT.

Module Jaro.

Definition charAt (s : list ascii) (i : nat) : ascii := nth i s Ascii.zero.

Definition flag (flags : list bool) (i : nat) : bool := nth i flags false.

Fixpoint mark (flags : list bool) (i : nat) : list bool :=
  match flags, i with
  | [], _ => []
  | _ :: r, 0 => true :: r
  | f :: r, S i' => f :: mark r i'
  end.

(** The inner [for (j = start; j < end; j += 1)] loop: the first [j] that
    is free in [b] and carries the character [ai]; [count] is [end - j]. *)
Fixpoint findMatch (ai : ascii) (b : list ascii) (bMatches : list bool)
  (j count : nat) : option nat :=
  match count with
  | 0 => None
  | S count' =>
      if flag bMatches j then findMatch ai b bMatches (S j) count'
      else if negb (Ascii.eqb ai (charAt b j)) then
        findMatch ai b bMatches (S j) count'
      else Some j
  end.

Record MatchState : Type := mkMatchState {
  aMatches : list bool;
  bMatches : list bool;
  matches : nat
}.

Definition matchStep (a b : list ascii) (matchDistance : nat)
  (st : MatchState) (i : nat) : MatchState :=
  let start := i - matchDistance in
  let stop := Nat.min (i + matchDistance + 1) (List.length b) in
  match findMatch (charAt a i) b (bMatches st) start (stop - start) with
  | Some j =>
      mkMatchState (mark (aMatches st) i) (mark (bMatches st) j)
        (S (matches st))
  | None => st
  end.

Definition matchLoop (a b : list ascii) (matchDistance : nat) : MatchState :=
  fold_left (matchStep a b matchDistance) (seq 0 (List.length a))
    (mkMatchState (repeat false (List.length a))
       (repeat false (List.length b)) 0).

(** [while (k < bLength && !bMatches[k]) k += 1]; [fuel] is
    [bLength - k], the number of iterations the loop can make. *)
Fixpoint skipUnmatched (bMatches : list bool) (bLength k fuel : nat) : nat :=
  match fuel with
  | 0 => k
  | S fuel' =>
      if (k <? bLength) && negb (flag bMatches k) then
        skipUnmatched bMatches bLength (S k) fuel'
      else k
  end.

(** The second loop, over the indices still to visit. *)
Fixpoint transpositionLoop (a b : list ascii) (aMatches bMatches : list bool)
  (indices : list nat) (k transpositions : nat) : nat :=
  match indices with
  | [] => transpositions
  | i :: rest =>
      if negb (flag aMatches i) then
        transpositionLoop a b aMatches bMatches rest k transpositions
      else
        let bLength := List.length b in
        let k' := skipUnmatched bMatches bLength k (bLength - k) in
        if bLength <=? k' then transpositions
        else
          let transpositions' :=
            if negb (Ascii.eqb (charAt a i) (charAt b k'))
            then S transpositions else transpositions in
          transpositionLoop a b aMatches bMatches rest (S k') transpositions'
  end.

(** [while (prefix < maxPrefix && a[prefix] === b[prefix]) prefix += 1]. *)
Fixpoint commonPrefix (a b : list ascii) (prefix fuel : nat) : nat :=
  match fuel with
  | 0 => prefix
  | S fuel' =>
      if Ascii.eqb (charAt a prefix) (charAt b prefix) then
        commonPrefix a b (S prefix) fuel'
      else prefix
  end.

End Jaro.

Definition computeJaroWinklerSimilarity (a b : string) : Q :=
  if negb (nonEmpty a) || negb (nonEmpty b) then 0%Q
  else if String.eqb a b then 1%Q
  else
    let ca := chars a in
    let cb := chars b in
    let aLength := List.length ca in
    let bLength := List.length cb in
    let matchDistance := Nat.max aLength bLength / 2 - 1 in
    let st := Jaro.matchLoop ca cb matchDistance in
    let m := Jaro.matches st in
    if m =? 0 then 0%Q
    else
      let transpositions :=
        Jaro.transpositionLoop ca cb (Jaro.aMatches st) (Jaro.bMatches st)
          (seq 0 aLength) 0 0 in
      let jaro :=
        ((Qnat m / Qnat aLength + Qnat m / Qnat bLength
          + (Qnat m - Qnat transpositions / 2) / Qnat m) / 3)%Q in
      let maxPrefix := Nat.min 4 (Nat.min aLength bLength) in
      let prefix := Jaro.commonPrefix ca cb 0 maxPrefix in
      let winkler := (jaro + Qnat prefix * (1 # 10) * (1 - jaro))%Q in
      Qmin 1 winkler.

(** ** Near-duplicate classifier *)

Definition areHeadlinesNearDuplicate (a b : HeadlineCandidate)
  (options : DedupeOptions) : bool :=
  if nonEmpty (normalizedUrl a) && nonEmpty (normalizedUrl b)
     && String.eqb (normalizedUrl a) (normalizedUrl b)
  then true
  else if nonEmpty (normalizedTitle a) && nonEmpty (normalizedTitle b)
          && String.eqb (normalizedTitle a) (normalizedTitle b)
  then true
  else if nonEmpty (normalizedDescription a)
          && nonEmpty (normalizedDescription b)
          && String.eqb (normalizedDescription a) (normalizedDescription b)
  then true
  else
    let overlap := computeTokenOverlapRatio (tokenSet a) (tokenSet b) in
    if Qle_bool (getTokenOverlapThreshold (mode options)) overlap then true
    else if isStrict (mode options) then
      let titleSimilarity :=
        computeJaroWinklerSimilarity (normalizedTitle a) (normalizedTitle b) in
      if Qle_bool STRICT_TITLE_SIMILARITY_THRESHOLD titleSimilarity then true
      else false
    else false.

(** ** Ranking metadata *)

Record HeadlineRankingComponents : Type := mkComponents {
  recency : Q;
  sourceDiversity : Q;
  topicCoverage : Q;
  clusterSupport : Q
}.

Record HeadlineRankingDetails : Type := mkDetails {
  ageHours : option Q;
  sourceOccurrences : nat;
  uniqueTokenRatio : Q;
  clusterSize : nat;
  clusterUniqueSources : nat
}.

Record HeadlineRankingMetadata : Type := mkMetadata {
  score : Q;
  components : HeadlineRankingComponents;
  details : HeadlineRankingDetails;
  reasons : list string
}.

Record RankedHeadlineCandidate : Type := mkRanked {
  candidate : HeadlineCandidate;
  ranking : HeadlineRankingMetadata
}.

(** An element of the array [scored]: a ranked candidate and its index. *)
Record ScoredCandidate : Type := mkScored {
  ranked : RankedHeadlineCandidate;
  index : nat
}.

Record HeadlineResponseEntry : Type := mkResponseEntry {
  entryTitle : string;
  entryDescription : string;
  entryUrl : string;
  entrySource : string;
  entryPublishedAt : string;
  relatedArticles : option (list RelatedArticle);
  entryRanking : HeadlineRankingMetadata
}.

(** ** JavaScript [Map<string, number>] holding counters *)

Module Counter.

Definition t := list (string * nat).

Fixpoint get (m : t) (key : string) : option nat :=
  match m with
  | [] => None
  | (k, v) :: r => if String.eqb k key then Some v else get r key
  end.

Fixpoint set (m : t) (key : string) (value : nat) : t :=
  match m with
  | [] => [(key, value)]
  | (k, v) :: r =>
      if String.eqb k key then (k, value) :: r else (k, v) :: set r key value
  end.

(** [m.get(key) ?? fallback]. *)
Definition getOr (m : t) (key : string) (fallback : nat) : nat :=
  match get m key with
  | Some v => v
  | None => fallback
  end.

(** [m.set(key, (m.get(key) ?? 0) + 1)]. *)
Definition increment (m : t) (key : string) : t :=
  set m key (getOr m key 0 + 1).

End Counter.

(** ** [Array.prototype.sort] and [slice]

    [sort] is stable. The comparator is given by the sign of the number it
    returns: [Lt] when negative (the first argument goes first), [Gt] when
    positive. Insertion from the right end computes the stable order; for
    the comparator of the ranker no other order is possible (lemma
    [sortScored_unique]), so the procedure the platform follows does not
    matter. *)

Fixpoint insertSorted {A : Type} (cmp : A -> A -> comparison) (x : A)
  (l : list A) : list A :=
  match l with
  | [] => [x]
  | y :: r =>
      match cmp x y with
      | Gt => y :: insertSorted cmp x r
      | _ => x :: l
      end
  end.

Definition sortBy {A : Type} (cmp : A -> A -> comparison) (l : list A)
  : list A :=
  fold_right (insertSorted cmp) [] l.

(** [l.slice(0, stop)] for an integer [stop]: a negative [stop] counts from
    the end of the array. *)
Definition sliceFromStart {A : Type} (l : list A) (stop : Z) : list A :=
  if (stop <? 0)%Z
  then firstn (Z.to_nat (Z.of_nat (List.length l) + stop)) l
  else firstn (Z.to_nat stop) l.

(** ** The platform: [new URL] and [Date.parse] *)

(** The three components of a parsed URL the engine reads. *)
Record ParsedUrl : Type := mkParsedUrl {
  protocol : string;
  hostname : string;
  pathname : string
}.

Fixpoint lookup {A : Type} (table : list (string * A)) (key : string)
  : option A :=
  match table with
  | [] => None
  | (k, v) :: r => if String.eqb k key then Some v else lookup r key
  end.

(** A sample platform for the worked examples: the URLs and timestamps
    listed here parse as they do in a JavaScript engine; any other string is
    taken as one the parser rejects. *)
Definition sampleUrlTable : list (string * ParsedUrl) :=
  [ ("https://x.com/a", mkParsedUrl "https:" "x.com" "/a");
    ("https://x.com/b", mkParsedUrl "https:" "x.com" "/b");
    ("https://X.com/a/", mkParsedUrl "https:" "x.com" "/a/");
    ("https://example.com/ai-testing-leaps",
     mkParsedUrl "https:" "example.com" "/ai-testing-leaps");
    ("https://example.com/ai-tests-leap",
     mkParsedUrl "https:" "example.com" "/ai-tests-leap") ].

Definition sampleParseUrl (s : string) : option ParsedUrl :=
  lookup sampleUrlTable s.

Definition sampleDateTable : list (string * Z) :=
  [ ("2024-07-01T10:00:00Z", 1719828000000%Z);
    ("2024-07-01T12:00:00Z", 1719835200000%Z);
    ("2024-07-02T12:00:00Z", 1719921600000%Z) ].

Definition sampleDateParse (s : string) : option Z :=
  lookup sampleDateTable s.

(** [Math.trunc] of the number a caller sent as [limit]; [None] stands for
    a limit that is absent or not numeric. *)
Definition resolveLimit (numeric : option Q) : Z :=
  match numeric with
  | None => DEFAULT_LIMIT
  | Some q =>
      let truncated := Z.quot (Qnum q) (Zpos (Qden q)) in
      Z.min MAX_LIMIT (Z.max MIN_LIMIT truncated)
  end.

Definition MAX_EXCLUDE_URLS : nat := 200.

(** ** Sample records

    Records for the worked examples. A URL without a scheme, such as
    [a.example/1], is one [new URL] rejects, so that it is normalized by the
    fallback branch. *)

Definition headline (t d u s p : string) : NormalizedHeadline :=
  mkNormalizedHeadline t d u s p None None None.

Definition defaultOptions : DedupeOptions := mkDedupeOptions Default None.
Definition strictOptions : DedupeOptions := mkDedupeOptions Strict None.

Definition marsRecord : NormalizedHeadline :=
  headline "Mars rover finds water" "" "https://x.com/a" "A" "".

Definition marsNoUrl : NormalizedHeadline :=
  headline "Mars rover finds water" "" "" "A" "".

Definition undatedRecord : NormalizedHeadline :=
  headline "Alpha beta gamma" "" "a.example/1" "A" "".

Definition datedRecord : NormalizedHeadline :=
  headline "Delta epsilon zeta" "" "b.example/1" "B" "2024-07-01T10:00:00Z".

Definition supportedRecord (u s : string) : NormalizedHeadline :=
  headline "Kappa lambda sigma" "" u s "".

Definition wireRecord (u s : string) : NormalizedHeadline :=
  headline "Mars rover finds water" "" u s "2024-07-01T12:00:00Z".

(** Eight reports of one story by eight outlets. *)
Definition wireRecords : list NormalizedHeadline :=
  [ wireRecord "a.example/1" "A"; wireRecord "b.example/1" "B";
    wireRecord "c.example/1" "C"; wireRecord "d.example/1" "D";
    wireRecord "e.example/1" "E"; wireRecord "f.example/1" "F";
    wireRecord "g.example/1" "G"; wireRecord "h.example/1" "H" ].

(** Clock readings: the publication time of [datedRecord], the same
    plus one hundred hours, and the publication time of [wireRecord]. *)
Definition sampleNow : Z := 1719828000000%Z.
Definition sampleLater : Z := (1719828000000 + 100 * 3600000)%Z.
Definition wireNow : Z := 1719835200000%Z.

(** The clock of a run so short that every reading is the same, and one
    that advances by a millisecond from one candidate to the next. *)
Definition steady (t : Z) : nat -> Z := fun _ => t.
Definition ticking (t : Z) : nat -> Z := fun i => (t + Z.of_nat i)%Z.


Section Engine.

#[local] Set Default Proof Using "Type".

(** [new URL(url)]: [None] when the constructor throws. *)
Variable parseUrl : string -> option ParsedUrl.

(** [Date.parse(s)] in milliseconds: [None] when the result is [NaN]. *)
Variable dateParse : string -> option Z.

(** ** URL normalizer *)

Definition normalizeUrlForComparison (url : string) : string :=
  if negb (nonEmpty url) then ""
  else
    match parseUrl url with
    | Some parsed =>
        let normalizedPath := stripTrailingSlashes (pathname parsed) in
        toLowerCase
          (stripTrailingSlashes
             (protocol parsed ++ "//" ++ hostname parsed
              ++ normalizedPath)%string)
    | None => toLowerCase (stripTrailingSlashes (trim url))
    end.

(** The loop of [normalizeExcludeUrls] over the string entries of the
    request. *)
Fixpoint excludeUrlsLoop (entries normalized : list string)
  (seen : StringSet.t) : list string :=
  match entries with
  | [] => normalized
  | entry :: rest =>
      let trimmed := trim entry in
      if negb (nonEmpty trimmed) then excludeUrlsLoop rest normalized seen
      else
        let normalizedUrl := normalizeUrlForComparison trimmed in
        if negb (nonEmpty normalizedUrl) then
          excludeUrlsLoop rest normalized seen
        else if StringSet.has seen normalizedUrl then
          excludeUrlsLoop rest normalized seen
        else
          let normalized' := normalized ++ [normalizedUrl] in
          if MAX_EXCLUDE_URLS <=? List.length normalized' then normalized'
          else
            excludeUrlsLoop rest normalized' (StringSet.add seen normalizedUrl)
  end.

Definition normalizeExcludeUrls (entries : list string) : list string :=
  excludeUrlsLoop entries [] [].

(** The [dedupeOptions] object the handler builds for a run. *)
Definition runOptions (dedupeMode : DedupeMode) (entries : list string)
  : DedupeOptions :=
  let excludeUrls := normalizeExcludeUrls entries in
  mkDedupeOptions dedupeMode
    (if 0 <? List.length excludeUrls
     then Some (StringSet.addAll [] excludeUrls)
     else None).

(** ** Candidate aggregator

    [data] is the record object itself. The handler may hand one record to
    two aggregations (the overall list and the list of a keyword); every
    assignment to a record is one of the guarded assignments of
    [mergeIntoExisting], and each aggregation is modelled on its own. *)

Definition createHeadlineCandidate (headline : NormalizedHeadline)
  (options : DedupeOptions) : HeadlineCandidate :=
  {| data := headline;
     normalizedUrl := normalizeUrlForComparison (url headline);
     normalizedTitle := normalizeHeadlineText (title headline);
     normalizedDescription := normalizeHeadlineText (description headline);
     tokenSet :=
       buildTokenSet (title headline) (description headline) (mode options);
     related := [] |}.

Definition isExcluded (enriched : HeadlineCandidate) (options : DedupeOptions)
  : bool :=
  nonEmpty (normalizedUrl enriched)
  && match excludedUrls options with
     | Some excluded => StringSet.has excluded (normalizedUrl enriched)
     | None => false
     end.

(** The guard of lines 1440-1450: the incoming URL is the primary's or
    that of a related article already kept. *)
Definition urlAlreadyInCluster (existing : HeadlineCandidate)
  (candidate : NormalizedHeadline) : bool :=
  let normalizedCandidateUrl := normalizeUrlForComparison (url candidate) in
  nonEmpty normalizedCandidateUrl
  && (String.eqb normalizedCandidateUrl (normalizedUrl existing)
      || existsb
           (fun relatedArticle =>
              String.eqb
                (normalizeUrlForComparison (Related.url relatedArticle))
                normalizedCandidateUrl)
           (related existing)).

Definition withDescription (d : NormalizedHeadline) (text : string)
  : NormalizedHeadline :=
  mkNormalizedHeadline (title d) text (url d) (source d) (publishedAt d)
    (queryUsed d) (keyword d) (searchQuery d).

Definition withKeyword (d : NormalizedHeadline) (value : option string)
  : NormalizedHeadline :=
  mkNormalizedHeadline (title d) (description d) (url d) (source d)
    (publishedAt d) (queryUsed d) value (searchQuery d).

Definition withQueryUsed (d : NormalizedHeadline) (value : option string)
  : NormalizedHeadline :=
  mkNormalizedHeadline (title d) (description d) (url d) (source d)
    (publishedAt d) value (keyword d) (searchQuery d).

Definition withSearchQuery (d : NormalizedHeadline) (value : option string)
  : NormalizedHeadline :=
  mkNormalizedHeadline (title d) (description d) (url d) (source d)
    (publishedAt d) (queryUsed d) (keyword d) value.

(** The object pushed on [existing.related]. *)
Definition toRelatedArticle (candidate : NormalizedHeadline) : RelatedArticle :=
  Related.mkRelatedArticle (title candidate) (description candidate)
    (url candidate) (source candidate) (publishedAt candidate).

(** Lines 1452-1482: the assignments made to [existing] when [candidate]
    is merged into it. *)
Definition mergeIntoExisting (existing : HeadlineCandidate)
  (candidate : NormalizedHeadline) (enriched : HeadlineCandidate)
  : HeadlineCandidate :=
  let longer :=
    nonEmpty (description candidate)
    && (String.length (description (data existing))
        <? String.length (description candidate)) in
  let d1 :=
    if longer then withDescription (data existing) (description candidate)
    else data existing in
  let normalizedDescription1 :=
    if longer then normalizeHeadlineText (description candidate)
    else normalizedDescription existing in
  let d2 :=
    if truthy (keyword candidate) && negb (truthy (keyword d1))
    then withKeyword d1 (keyword candidate) else d1 in
  let d3 :=
    if truthy (queryUsed candidate) && negb (truthy (queryUsed d2))
    then withQueryUsed d2 (queryUsed candidate) else d2 in
  let d4 :=
    if truthy (searchQuery candidate) && negb (truthy (searchQuery d3))
    then withSearchQuery d3 (searchQuery candidate) else d3 in
  {| data := d4;
     normalizedUrl := normalizedUrl existing;
     normalizedTitle := normalizedTitle existing;
     tokenSet := StringSet.addAll (tokenSet existing) (tokenSet enriched);
     normalizedDescription := normalizedDescription1;
     related := related existing ++ [toRelatedArticle candidate] |}.

(** The [for (const existing of aggregated)] loop: [Some] of the updated
    array when a near-duplicate was found and the function returned
    [false] from inside the loop, [None] when the loop ran to its end. *)
Fixpoint scanAggregated (aggregated : list HeadlineCandidate)
  (candidate : NormalizedHeadline) (enriched : HeadlineCandidate)
  (options : DedupeOptions) : option (list HeadlineCandidate) :=
  match aggregated with
  | [] => None
  | existing :: rest =>
      if areHeadlinesNearDuplicate existing enriched options then
        if urlAlreadyInCluster existing candidate then Some (existing :: rest)
        else Some (mergeIntoExisting existing candidate enriched :: rest)
      else
        match scanAggregated rest candidate enriched options with
        | Some rest' => Some (existing :: rest')
        | None => None
        end
  end.

Definition addHeadlineIfUnique (aggregated : list HeadlineCandidate)
  (candidate : NormalizedHeadline) (options : DedupeOptions)
  : list HeadlineCandidate * bool :=
  let enriched := createHeadlineCandidate candidate options in
  if isExcluded enriched options then (aggregated, false)
  else
    match scanAggregated aggregated candidate enriched options with
    | Some aggregated' => (aggregated', false)
    | None => (aggregated ++ [enriched], true)
    end.

(** The records of a run fed in arrival order. *)
Definition aggregateHeadlines (records : list NormalizedHeadline)
  (options : DedupeOptions) : list HeadlineCandidate :=
  fold_left
    (fun aggregated record =>
       fst (addHeadlineIfUnique aggregated record options))
    records [].

(** ** Ranker *)

(** [Date.now()] is the argument [now], in milliseconds. The test
    [Number.isFinite(clamped)] always succeeds on the rationals. *)
Definition computeRecencyScore (now : Z) (publishedAt : string)
  : Q * option Q :=
  if negb (nonEmpty publishedAt) then (0%Q, None)
  else
    match dateParse publishedAt with
    | None => (0%Q, None)
    | Some parsed =>
        let age := Qmax 0 (inject_Z (now - parsed) / inject_Z 3600000)%Q in
        let maxHours := 72%Q in
        let clamped := Qmin age maxHours in
        ((1 - clamped / maxHours)%Q, Some age)
    end.

Definition computeSourceDiversityScore (occurrences : nat) : Q :=
  if occurrences <=? 0 then 0%Q else (1 / Qnat occurrences)%Q.

(** Returns [score] and [ratio], which are the same number. *)
Definition computeTopicCoverageScore (tokens : StringSet.t)
  (tokenFrequency : Counter.t) : Q * Q :=
  if StringSet.size tokens =? 0 then (0%Q, 0%Q)
  else
    let uniqueTokens :=
      List.length
        (filter (fun token => Counter.getOr tokenFrequency token 0 <=? 1)
           tokens) in
    let ratio :=
      (Qnat uniqueTokens / Qnat (Nat.max 1 (StringSet.size tokens)))%Q in
    (ratio, ratio).

(** [s.trim().toLowerCase() || 'unknown']. *)
Definition sourceKeyOf (s : string) : string :=
  let normalized := toLowerCase (trim s) in
  if nonEmpty normalized then normalized else "unknown".

Definition clusterSources (c : HeadlineCandidate) : StringSet.t :=
  fold_left
    (fun sources article =>
       StringSet.add sources (sourceKeyOf (Related.source article)))
    (related c)
    (StringSet.add [] (sourceKeyOf (source (data c)))).

(** Returns [score], [clusterSize] and [clusterUniqueSources]. *)
Definition computeClusterSupportScore (c : HeadlineCandidate)
  : Q * nat * nat :=
  let size := Nat.max 1 (List.length (related c) + 1) in
  let uniqueSources := StringSet.size (clusterSources c) in
  let normalizedSize :=
    if (CLUSTER_SIZE_FULL_SCORE <=? 1)%Z then
      if 1 <? size then 1%Q else 0%Q
    else
      Qmin 1
        ((Qnat size - 1) / (inject_Z CLUSTER_SIZE_FULL_SCORE - 1))%Q in
  let normalizedSources :=
    if (CLUSTER_SOURCES_FULL_SCORE <=? 1)%Z then
      if 1 <? uniqueSources then 1%Q else 0%Q
    else
      Qmin 1
        ((Qnat uniqueSources - 1)
         / (inject_Z CLUSTER_SOURCES_FULL_SCORE - 1))%Q in
  (Qmin 1 ((normalizedSize + normalizedSources) / 2)%Q, size, uniqueSources).

Definition buildRankingReasons (metadata : HeadlineRankingMetadata)
  : list string :=
  let c := components metadata in
  let atLeast (x bound : Q) := Qle_bool bound x in
  let atMost (x bound : Q) := Qle_bool x bound in
  (match ageHours (details metadata) with
   | Some _ =>
       if atLeast (recency c) (75 # 100)%Q then
         ["Published within the last 18 hours"]
       else if atLeast (recency c) (5 # 10)%Q then ["Published recently"]
       else if atMost (recency c) (1 # 10)%Q then ["Older coverage"]
       else []
   | None => []
   end)
  ++ (if atLeast (sourceDiversity c) (75 # 100)%Q then
        ["Unique source in this set"]
      else if atMost (sourceDiversity c) (25 # 100)%Q then
        ["Source appears multiple times"]
      else [])
  ++ (if atLeast (topicCoverage c) (6 # 10)%Q then
        ["Adds distinct topic details"]
      else if atMost (topicCoverage c) (2 # 10)%Q then
        ["Overlaps heavily with other articles"]
      else [])
  ++ (if atLeast (clusterSupport c) (6 # 10)%Q then ["Covered by many outlets"]
      else if atLeast (clusterSupport c) (3 # 10)%Q then
        ["Multiple supporting reports"]
      else if clusterSize (details metadata) <=? 1 then
        ["Limited supporting coverage"]
      else []).

(** The first [forEach]: both frequency maps after one more candidate. *)
Definition countCandidate (frequency : Counter.t * Counter.t)
  (c : HeadlineCandidate) : Counter.t * Counter.t :=
  let '(sourceFrequency, tokenFrequency) := frequency in
  (Counter.increment sourceFrequency (sourceKeyOf (source (data c))),
   fold_left Counter.increment (tokenSet c) tokenFrequency).

Definition buildFrequencies (candidates : list HeadlineCandidate)
  : Counter.t * Counter.t :=
  fold_left countCandidate candidates ([], []).

(** The callback of [candidates.map((candidate, index) => ...)];
    [clock i] is what [Date.now()] returns while candidate [i] is scored. *)
Definition scoreCandidate (clock : nat -> Z)
  (frequency : Counter.t * Counter.t) (c : HeadlineCandidate) (i : nat)
  : ScoredCandidate :=
  let '(sourceFrequency, tokenFrequency) := frequency in
  let sourceKey := sourceKeyOf (source (data c)) in
  let occurrences := Counter.getOr sourceFrequency sourceKey 1 in
  let '(recencyScore, age) :=
    computeRecencyScore (clock i) (publishedAt (data c)) in
  let sourceScore := computeSourceDiversityScore occurrences in
  let '(topicScore, topicRatio) :=
    computeTopicCoverageScore (tokenSet c) tokenFrequency in
  let '(clusterScore, size, uniqueSources) := computeClusterSupportScore c in
  let total :=
    (recencyScore * RANKING_RECENCY_WEIGHT
     + sourceScore * RANKING_SOURCE_WEIGHT
     + topicScore * RANKING_TOPIC_WEIGHT
     + clusterScore * RANKING_CLUSTER_WEIGHT)%Q in
  let metadata :=
    mkMetadata total
      (mkComponents recencyScore sourceScore topicScore clusterScore)
      (mkDetails age occurrences topicRatio size uniqueSources) [] in
  mkScored
    (mkRanked c
       (mkMetadata total (components metadata) (details metadata)
          (buildRankingReasons metadata)))
    i.

Fixpoint mapWithIndex {A B : Type} (f : A -> nat -> B) (l : list A)
  (i : nat) : list B :=
  match l with
  | [] => []
  | x :: r => f x i :: mapWithIndex f r (S i)
  end.

Definition scoreCandidates (clock : nat -> Z)
  (candidates : list HeadlineCandidate) : list ScoredCandidate :=
  mapWithIndex (scoreCandidate clock (buildFrequencies candidates))
    candidates 0.

(** The age part of the comparator: [None] when the code falls through to
    the comparison of the indices. An unknown age counts as
    [Number.POSITIVE_INFINITY]. *)
Definition compareAges (aAge bAge : option Q) : option comparison :=
  match aAge, bAge with
  | None, None => None
  | Some _, None => Some Lt
  | None, Some _ => Some Gt
  | Some x, Some y => if negb (Qeq_bool x y) then Some (x ?= y)%Q else None
  end.

Definition scoreOf (s : ScoredCandidate) : Q := score (ranking (ranked s)).

Definition ageOf (s : ScoredCandidate) : option Q :=
  ageHours (details (ranking (ranked s))).

(** The comparator passed to [scored.sort]. *)
Definition compareScored (a b : ScoredCandidate) : comparison :=
  if negb (Qeq_bool (scoreOf b) (scoreOf a)) then (scoreOf b ?= scoreOf a)%Q
  else
    match compareAges (ageOf a) (ageOf b) with
    | Some c => c
    | None => Nat.compare (index a) (index b)
    end.

Definition sortScored (clock : nat -> Z) (candidates : list HeadlineCandidate)
  : list ScoredCandidate :=
  sortBy compareScored (scoreCandidates clock candidates).

Definition rankHeadlineCandidates (clock : nat -> Z)
  (candidates : list HeadlineCandidate) : list RankedHeadlineCandidate :=
  match candidates with
  | [] => []
  | _ :: _ => map ranked (sortScored clock candidates)
  end.

(** ** Response builder *)

Definition buildHeadlineResponses (rankedList : list RankedHeadlineCandidate)
  : list HeadlineResponseEntry :=
  map
    (fun entry =>
       let c := candidate entry in
       mkResponseEntry (title (data c)) (description (data c)) (url (data c))
         (source (data c)) (publishedAt (data c))
         (if 0 <? List.length (related c) then Some (related c) else None)
         (ranking entry))
    rankedList.

(** Lines 2541-2543 of the handler. *)
Definition headlineEntries (clock : nat -> Z)
  (aggregated : list HeadlineCandidate)
  (limit : Z) : list HeadlineResponseEntry :=
  let rankedCandidates := rankHeadlineCandidates clock aggregated in
  let topRanked := sliceFromStart rankedCandidates limit in
  buildHeadlineResponses topRanked.

(** One run of the engine as the handler drives it: the records are fed to
    the aggregator in arrival order, the clusters are ranked under the
    readings of [clock], and the response is cut to the resolved limit. *)
Definition rankAndDeduplicate (clock : nat -> Z)
  (records : list NormalizedHeadline)
  (options : DedupeOptions) (limit : option Q) : list HeadlineResponseEntry :=
  headlineEntries clock (aggregateHeadlines records options)
    (resolveLimit limit).


(** ** Statements

    The definitions the properties below are stated with. *)

(** *** The stemmer as the specification words it *)

Definition qualifies (stem suffix : string) : bool :=
  endsWith stem suffix && (3 <=? String.length stem - String.length suffix).

(** The longest string of a list, the first one among equals. *)
Fixpoint longestOf (l : list string) : option string :=
  match l with
  | [] => None
  | x :: r =>
      match longestOf r with
      | Some y => if String.length x <? String.length y then Some y else Some x
      | None => Some x
      end
  end.

Definition stripLongestSuffix (sufs : list string) (stem : string) : string :=
  match longestOf (filter (qualifies stem) sufs) with
  | Some suffix => dropLast (String.length suffix) stem
  | None => stem
  end.

(** "collapsing a trailing ies or ied ending to y". *)
Definition specCollapse (token : string) : string :=
  if endsWith token "ies" || endsWith token "ied"
  then (dropLast 3 token ++ "y")%string
  else token.

Definition specStem (token : string) : string :=
  stripLongestSuffix suffixes (specCollapse token).

(** The same with the guard of the code: only a token of more than four
    characters is collapsed, after its possessive ending was removed. *)
Definition specCollapseGuarded (token : string) : string :=
  if (endsWith token "ies" || endsWith token "ied")
     && (4 <? String.length token)
  then (dropLast 3 token ++ "y")%string
  else token.

Definition specStemAmended (token : string) : string :=
  stripLongestSuffix suffixes (specCollapseGuarded (stripPossessive token)).

(** No suffix of the list is a proper ending of one listed after it. *)
Fixpoint longerLater (l : list string) : bool :=
  match l with
  | [] => true
  | x :: r =>
      forallb
        (fun y => negb ((String.length x <? String.length y) && endsWith y x))
        r
      && longerLater r
  end.

(** *** Similarity *)

Definition disjointChars (a b : list ascii) : Prop :=
  forall c, In c a -> In c b -> False.

(** *** Aggregation *)

Definition feedTwice (record : NormalizedHeadline) (options : DedupeOptions)
  : list HeadlineCandidate :=
  let once := fst (addHeadlineIfUnique [] record options) in
  fst (addHeadlineIfUnique once record options).

Definition withRelated (c : HeadlineCandidate) (articles : list RelatedArticle)
  : HeadlineCandidate :=
  mkHeadlineCandidate (data c) (normalizedUrl c) (normalizedTitle c)
    (tokenSet c) (normalizedDescription c) articles.

(** What adding [candidate] may change on a cluster already there. *)
Definition primaryPreserved (candidate : NormalizedHeadline)
  (before after : HeadlineCandidate) : Prop :=
  title (data after) = title (data before)
  /\ url (data after) = url (data before)
  /\ source (data after) = source (data before)
  /\ publishedAt (data after) = publishedAt (data before)
  /\ (truthy (keyword (data before)) = true ->
      keyword (data after) = keyword (data before))
  /\ (truthy (queryUsed (data before)) = true ->
      queryUsed (data after) = queryUsed (data before))
  /\ (truthy (searchQuery (data before)) = true ->
      searchQuery (data after) = searchQuery (data before))
  /\ (description (data after) <> description (data before) ->
      description (data after) = description candidate
      /\ String.length (description (data before))
         < String.length (description candidate)).

(** *** Ranking order *)

(** An unknown age is later than every known one. *)
Definition ageBefore (a b : option Q) : Prop :=
  match a, b with
  | Some x, Some y => (x < y)%Q
  | Some _, None => True
  | None, _ => False
  end.

Definition ageSame (a b : option Q) : Prop :=
  match a, b with
  | Some x, Some y => (x == y)%Q
  | None, None => True
  | _, _ => False
  end.

(** The order the comparator implements: score descending, then age
    ascending, then index ascending. *)
Definition inOrder (x y : ScoredCandidate) : Prop :=
  (scoreOf y < scoreOf x)%Q
  \/ ((scoreOf x == scoreOf y)%Q
      /\ (ageBefore (ageOf x) (ageOf y)
          \/ (ageSame (ageOf x) (ageOf y) /\ index x <= index y))).

(** [x] may stand before [y] when their scores are equal. *)
Definition tieOrder (x y : ScoredCandidate) : Prop :=
  (scoreOf x == scoreOf y)%Q ->
  match ageOf x, ageOf y with
  | Some ax, Some ay => (ax <= ay)%Q /\ ((ax == ay)%Q -> index x < index y)
  | Some _, None => True
  | None, Some _ => False
  | None, None => index x < index y
  end.

(** The same as the specification words it: the index decides as soon as
    one age is unknown. *)
Definition specTieOrder (x y : ScoredCandidate) : Prop :=
  (scoreOf x == scoreOf y)%Q ->
  match ageOf x, ageOf y with
  | Some ax, Some ay => (ax <= ay)%Q
  | _, _ => index x < index y
  end.

Definition byDescendingScore (x y : HeadlineResponseEntry) : Prop :=
  (score (entryRanking y) <= score (entryRanking x))%Q.

(** *** Score bounds *)

Definition unitInterval (x : Q) : Prop := (0 <= x <= 1)%Q.

Definition weightedSum (c : HeadlineRankingComponents) : Q :=
  (recency c * (45 # 100) + sourceDiversity c * (20 # 100)
   + topicCoverage c * (20 # 100) + clusterSupport c * (25 # 100))%Q.

Definition withinBounds (m : HeadlineRankingMetadata) : Prop :=
  unitInterval (recency (components m))
  /\ unitInterval (sourceDiversity (components m))
  /\ unitInterval (topicCoverage (components m))
  /\ unitInterval (clusterSupport (components m))
  /\ (score m == weightedSum (components m))%Q
  /\ (0 <= score m <= 11 # 10)%Q.

(** * Properties *)

(** Propositional steps that leave the platform out of the proof. *)
Ltac prop := try clear dateParse; try clear parseUrl; tauto.

(** ** Strings and sets *)

Lemma nonEmpty_true (s : string) : nonEmpty s = true <-> s <> "".
Proof. destruct s; simpl; split; intros; congruence. Qed.

Lemma nonEmpty_false (s : string) : nonEmpty s = false <-> s = "".
Proof. destruct s; simpl; split; intros; congruence. Qed.

Lemma length_chars (s : string) : List.length (chars s) = String.length s.
Proof. induction s; simpl; auto. Qed.

Lemma isPrefix_shorter (p q l : list ascii) :
  isPrefix p l = true -> isPrefix q l = true ->
  List.length p <= List.length q -> isPrefix p q = true.
Proof.
  revert q l. induction p as [|x p IH]; intros q l Hp Hq Hlen; [reflexivity|].
  destruct q as [|y q]; [simpl in Hlen; lia|].
  destruct l as [|z l]; [discriminate|].
  simpl in *. apply andb_true_iff in Hp as [Hx Hp].
  apply andb_true_iff in Hq as [Hy Hq].
  apply Ascii.eqb_eq in Hx, Hy. subst.
  rewrite Ascii.eqb_refl. simpl. apply (IH q l); auto. lia.
Qed.

Lemma endsWith_shorter (s x y : string) :
  endsWith s x = true -> endsWith s y = true ->
  String.length x <= String.length y -> endsWith y x = true.
Proof.
  unfold endsWith. intros Hx Hy Hlen.
  apply (isPrefix_shorter _ _ _ Hx Hy).
  rewrite !length_rev, !length_chars. exact Hlen.
Qed.

Lemma has_In (s : StringSet.t) (x : string) :
  StringSet.has s x = true <-> In x s.
Proof.
  unfold StringSet.has. rewrite existsb_exists. split.
  - intros [y [Hy E]]. apply String.eqb_eq in E. subst. exact Hy.
  - intros H. exists x. split; [exact H|apply String.eqb_refl].
Qed.

Lemma add_In (s : StringSet.t) (x y : string) :
  In y (StringSet.add s x) <-> In y s \/ y = x.
Proof.
  unfold StringSet.add. destruct (StringSet.has s x) eqn:E.
  - apply has_In in E. split; [auto|]. intros [H| ->]; auto.
  - rewrite in_app_iff. simpl. split.
    + intros [H|[H|[]]]; auto.
    + intros [H|H]; auto.
Qed.

Lemma addAll_In (xs : list string) (s : StringSet.t) (y : string) :
  In y (StringSet.addAll s xs) <-> In y s \/ In y xs.
Proof.
  unfold StringSet.addAll. revert s.
  induction xs as [|x xs IH]; simpl; intros s.
  - split; [auto|intros [H|[]]; exact H].
  - rewrite IH, add_In.
    split; [intros [[H| ->]|H]|intros [H|[->|H]]]; auto.
Qed.

Lemma addAll_present (xs : list string) (s : StringSet.t) :
  (forall x, In x xs -> In x s) -> StringSet.addAll s xs = s.
Proof.
  unfold StringSet.addAll.
  induction xs as [|x xs IH]; simpl; intros H; [reflexivity|].
  assert (E : StringSet.add s x = s).
  { unfold StringSet.add. rewrite (proj2 (has_In s x)); auto. }
  rewrite E. apply IH. auto.
Qed.

Lemma add_length (s : StringSet.t) (x : string) :
  List.length s <= List.length (StringSet.add s x).
Proof.
  unfold StringSet.add. destruct (StringSet.has s x); [lia|].
  rewrite length_app. lia.
Qed.

Lemma add_NoDup (s : StringSet.t) (x : string) :
  NoDup s -> NoDup (StringSet.add s x).
Proof.
  intros H. unfold StringSet.add.
  destruct (StringSet.has s x) eqn:E; [exact H|].
  apply NoDup_app; [exact H|repeat constructor; simpl; prop|].
  intros y Hy [<-|[]]. apply has_In in Hy. congruence.
Qed.

Lemma filter_all {A : Type} (p : A -> bool) (l : list A) :
  (forall x, In x l -> p x = true) -> filter p l = l.
Proof.
  induction l as [|x l IH]; simpl; intros H; [reflexivity|].
  rewrite H by auto. f_equal. auto.
Qed.

(** ** Token builder: the set and its cap *)

Lemma add_length_le (s : StringSet.t) (x : string) :
  List.length (StringSet.add s x) <= S (List.length s).
Proof.
  unfold StringSet.add. destruct (StringSet.has s x); [lia|].
  rewrite length_app. simpl. lia.
Qed.

Lemma addVariants_bounded (minLength : nat) (variants : list string)
  (tokens : StringSet.t) :
  NoDup tokens -> List.length tokens < MAX_TOKEN_COUNT ->
  let '(tokens', full) := addVariants minLength variants tokens in
  NoDup tokens' /\ List.length tokens' <= MAX_TOKEN_COUNT
  /\ (full = false -> List.length tokens' < MAX_TOKEN_COUNT).
Proof.
  revert tokens.
  induction variants as [|variant rest IH]; cbn [addVariants];
    intros tokens Hn Hl.
  - repeat split; [exact Hn|lia|intros _; exact Hl].
  - destruct (negb (nonEmpty variant) || (String.length variant <? minLength)).
    + apply IH; assumption.
    + unfold StringSet.size.
      pose proof (add_length_le tokens variant) as Ha.
      pose proof (add_NoDup tokens variant Hn) as Hd.
      destruct (Nat.leb_spec MAX_TOKEN_COUNT
                  (List.length (StringSet.add tokens variant)))
        as [Hfull|Hfree].
      * repeat split; [exact Hd|lia|discriminate].
      * apply IH; assumption.
Qed.

Lemma addTokens_bounded (mode : DedupeMode) (tokens : list string)
  (set : StringSet.t) :
  NoDup set -> List.length set < MAX_TOKEN_COUNT ->
  NoDup (addTokens mode tokens set)
  /\ List.length (addTokens mode tokens set) <= MAX_TOKEN_COUNT.
Proof.
  revert set.
  induction tokens as [|token rest IH]; cbn [addTokens]; intros set Hn Hl.
  - split; [exact Hn|lia].
  - destruct (negb (nonEmpty token)); [apply IH; assumption|].
    pose proof (addVariants_bounded (getTokenMinLength mode)
                  (normalizeTokenVariants token mode) set Hn Hl) as Hv.
    destruct (addVariants _ _ set) as [set' full].
    destruct Hv as [Hd [Hle Hfree]].
    destruct full; [split; assumption|].
    apply IH; [exact Hd|apply Hfree; reflexivity].
Qed.

(** The token set of a candidate is duplicate-free and holds at most 64
    tokens. *)
Lemma buildTokenSet_bounded (title description : string) (mode : DedupeMode) :
  NoDup (buildTokenSet title description mode)
  /\ List.length (buildTokenSet title description mode) <= MAX_TOKEN_COUNT.
Proof.
  unfold buildTokenSet. apply addTokens_bounded; [constructor|].
  unfold MAX_TOKEN_COUNT. simpl. lia.
Qed.

(** ** Token builder: the stemmer *)

Lemma stripFirstSuffix_filter (sufs : list string) (stem : string) :
  stripFirstSuffix sufs stem =
  match filter (qualifies stem) sufs with
  | [] => stem
  | suffix :: _ => dropLast (String.length suffix) stem
  end.
Proof.
  induction sufs as [|x r IH]; simpl; [reflexivity|].
  unfold qualifies at 1. destruct (endsWith stem x && _); simpl; auto.
Qed.

Lemma longestOf_in (l : list string) (y : string) :
  longestOf l = Some y -> In y l.
Proof.
  revert y. induction l as [|x r IH]; simpl; intros y H; [discriminate|].
  destruct (longestOf r) as [z|].
  - destruct (String.length x <? String.length z); inversion H; subst; auto.
  - inversion H; auto.
Qed.

Lemma longestOf_head (x : string) (r : list string) :
  Forall (fun y => String.length y <= String.length x) r ->
  longestOf (x :: r) = Some x.
Proof.
  intros H. simpl. destruct (longestOf r) as [z|] eqn:E; [|reflexivity].
  apply longestOf_in in E. rewrite Forall_forall in H. specialize (H z E).
  destruct (Nat.ltb_spec (String.length x) (String.length z));
    [lia|reflexivity].
Qed.

(** Among the suffixes that end [stem], none is longer than one listed
    before it. *)
Lemma filter_qualifies_ordered (stem : string) (l : list string) :
  longerLater l = true ->
  forall x r, filter (qualifies stem) l = x :: r ->
  Forall (fun y => String.length y <= String.length x) r.
Proof.
  induction l as [|a l IH]; simpl; intros Hl x r Hf; [discriminate|].
  apply andb_true_iff in Hl as [Ha Hl].
  destruct (qualifies stem a) eqn:Qa; [|eauto].
  inversion Hf; subst. clear IH.
  rewrite Forall_forall. intros y Hy. apply filter_In in Hy as [Hy Qy].
  rewrite forallb_forall in Ha. specialize (Ha y Hy).
  destruct (Nat.ltb_spec (String.length x) (String.length y)) as [Hlt|];
    [|lia].
  unfold qualifies in Qa, Qy.
  apply andb_true_iff in Qa as [Ea _]. apply andb_true_iff in Qy as [Ey _].
  rewrite (endsWith_shorter stem x y Ea Ey) in Ha by lia.
  discriminate Ha.
Qed.

Lemma stripFirst_is_longest (stem : string) :
  stripFirstSuffix suffixes stem = stripLongestSuffix suffixes stem.
Proof.
  rewrite stripFirstSuffix_filter. unfold stripLongestSuffix.
  destruct (filter (qualifies stem) suffixes) as [|x r] eqn:E; [reflexivity|].
  rewrite longestOf_head; [reflexivity|].
  apply (filter_qualifies_ordered stem suffixes);
    [vm_compute; reflexivity|exact E].
Qed.

Lemma collapse_guarded_eq (base : string) :
  collapseIesIed base = specCollapseGuarded base.
Proof.
  unfold collapseIesIed, specCollapseGuarded.
  destruct (endsWith base "ies"), (endsWith base "ied"),
    (4 <? String.length base); reflexivity.
Qed.

(** C5, as amended. For every token, the stemmed variant of strict mode is
    obtained by removing a trailing possessive, replacing a trailing [ies]
    or [ied] by [y] only when the token has more than four characters, and
    then stripping the longest suffix of the list whose removal leaves at
    least three characters. *)
Theorem stem_is_guarded_longest_suffix (token : string) :
  tokenStem token = specStemAmended token.
Proof.
  unfold tokenStem, specStemAmended, tokenBase.
  rewrite stripFirst_is_longest, collapse_guarded_eq. reflexivity.
Qed.

(** ** Similarity evaluators *)

Lemma findMatch_some (ai : ascii) (b : list ascii) (bM : list bool)
  (j count j' : nat) :
  Jaro.findMatch ai b bM j count = Some j' ->
  j <= j' < j + count /\ ai = Jaro.charAt b j'.
Proof.
  revert j. induction count as [|n IH]; simpl; intros j H; [discriminate|].
  destruct (Jaro.flag bM j).
  - apply IH in H as [H1 H2]. split; [lia|exact H2].
  - destruct (Ascii.eqb ai (Jaro.charAt b j)) eqn:E; simpl in H.
    + inversion H; subst. apply Ascii.eqb_eq in E. split; [lia|exact E].
    + apply IH in H as [H1 H2]. split; [lia|exact H2].
Qed.

Lemma matchStep_disjoint (a b : list ascii) (d : nat) (st : Jaro.MatchState)
  (i : nat) :
  disjointChars a b -> i < List.length a -> Jaro.matchStep a b d st i = st.
Proof.
  intros Hd Hi. unfold Jaro.matchStep.
  destruct (Jaro.findMatch _ _ _ _ _) as [j|] eqn:E; [|reflexivity].
  apply findMatch_some in E as [Hj Hc]. exfalso.
  apply (Hd (Jaro.charAt a i)).
  - apply nth_In. exact Hi.
  - rewrite Hc. apply nth_In. lia.
Qed.

Lemma matchLoop_disjoint (a b : list ascii) (d : nat) :
  disjointChars a b -> Jaro.matches (Jaro.matchLoop a b d) = 0.
Proof.
  intros Hd. unfold Jaro.matchLoop.
  set (st0 := Jaro.mkMatchState _ _ 0).
  assert (H : forall l, (forall i, In i l -> i < List.length a) ->
                        fold_left (Jaro.matchStep a b d) l st0 = st0).
  { induction l as [|i l IH]; simpl; intros Hl; [reflexivity|].
    rewrite matchStep_disjoint; auto. }
  rewrite H; [reflexivity|]. intros i Hi. apply in_seq in Hi. lia.
Qed.

(** C8, as amended. The Jaro-Winkler similarity of two identical strings
    is 1 when they are not empty, and the similarity of two strings with
    no character in common is 0. *)
Theorem jaro_winkler_extremes (a b : string) :
  (a = b -> a <> "" -> computeJaroWinklerSimilarity a b = 1%Q)
  /\ (disjointChars (chars a) (chars b) ->
      computeJaroWinklerSimilarity a b = 0%Q).
Proof.
  split.
  - intros -> Hne. unfold computeJaroWinklerSimilarity.
    apply nonEmpty_true in Hne. rewrite Hne. simpl.
    rewrite String.eqb_refl. reflexivity.
  - intros Hd. unfold computeJaroWinklerSimilarity.
    destruct (negb (nonEmpty a) || negb (nonEmpty b)) eqn:E; [reflexivity|].
    destruct (String.eqb a b) eqn:Eab.
    + apply String.eqb_eq in Eab. subst b. exfalso.
      destruct a as [|c a]; [discriminate|].
      apply (Hd c); simpl; auto.
    + rewrite matchLoop_disjoint by exact Hd. reflexivity.
Qed.

(** The overlap ratio is the size of the intersection over the size of
    the smaller set. *)
Lemma overlap_ratio_value (a b : StringSet.t) :
  a <> [] -> b <> [] -> List.length a <= List.length b ->
  computeTokenOverlapRatio a b
  = (Qnat (List.length (filter (StringSet.has b) a))
     / Qnat (List.length a))%Q.
Proof.
  intros Ha Hb Hle. unfold computeTokenOverlapRatio, StringSet.size.
  destruct a as [|x a]; [congruence|]. destruct b as [|y b]; [congruence|].
  cbn [List.length Nat.eqb orb].
  apply Nat.leb_le in Hle. cbn [List.length] in Hle. rewrite Hle.
  reflexivity.
Qed.

(** ** Near-duplicate classifier *)

Lemma equal_nonEmpty (x y : string) :
  nonEmpty x && nonEmpty y && String.eqb x y = true <-> x = y /\ x <> "".
Proof.
  rewrite !andb_true_iff, String.eqb_eq, !nonEmpty_true.
  split; [intros [[? ?] ?]; auto | intros [-> ?]; auto].
Qed.

Lemma Qle_bool_false (x y : Q) : Qle_bool x y = false <-> ~ (x <= y)%Q.
Proof.
  rewrite <- Qle_bool_iff. destruct (Qle_bool x y); split; congruence.
Qed.

(** C1. Two candidates are near-duplicates exactly when their normalized
    URLs, titles or descriptions are equal and not empty, or their token
    overlap ratio reaches 0.70 in default mode or 0.55 in strict mode, or,
    in strict mode, the Jaro-Winkler similarity of their normalized titles
    reaches 0.88. *)
Theorem near_duplicate_is_disjunction (a b : HeadlineCandidate)
  (options : DedupeOptions) :
  areHeadlinesNearDuplicate a b options = true <->
  (normalizedUrl a = normalizedUrl b /\ normalizedUrl a <> "")
  \/ (normalizedTitle a = normalizedTitle b /\ normalizedTitle a <> "")
  \/ (normalizedDescription a = normalizedDescription b
      /\ normalizedDescription a <> "")
  \/ (mode options = Default
      /\ (7 # 10 <= computeTokenOverlapRatio (tokenSet a) (tokenSet b))%Q)
  \/ (mode options = Strict
      /\ (55 # 100 <= computeTokenOverlapRatio (tokenSet a) (tokenSet b))%Q)
  \/ (mode options = Strict
      /\ (88 # 100 <= computeJaroWinklerSimilarity (normalizedTitle a)
                        (normalizedTitle b))%Q).
Proof.
  unfold areHeadlinesNearDuplicate, getTokenOverlapThreshold,
    TOKEN_OVERLAP_THRESHOLD_DEFAULT, TOKEN_OVERLAP_THRESHOLD_STRICT,
    STRICT_TITLE_SIMILARITY_THRESHOLD.
  pose proof (equal_nonEmpty (normalizedUrl a) (normalizedUrl b)) as U.
  pose proof (equal_nonEmpty (normalizedTitle a) (normalizedTitle b)) as T.
  pose proof (equal_nonEmpty (normalizedDescription a)
                (normalizedDescription b)) as D.
  destruct (nonEmpty (normalizedUrl a) && _ && _); [prop|].
  destruct (nonEmpty (normalizedTitle a) && _ && _); [prop|].
  destruct (nonEmpty (normalizedDescription a) && _ && _); [prop|].
  assert (U' : ~ (normalizedUrl a = normalizedUrl b /\ normalizedUrl a <> ""))
    by (rewrite <- U; discriminate).
  assert (T' : ~ (normalizedTitle a = normalizedTitle b
                  /\ normalizedTitle a <> ""))
    by (rewrite <- T; discriminate).
  assert (D' : ~ (normalizedDescription a = normalizedDescription b
                  /\ normalizedDescription a <> ""))
    by (rewrite <- D; discriminate).
  clear U T D.
  destruct (mode options); cbn [isStrict].
  - destruct (Qle_bool _ _) eqn:O.
    + apply Qle_bool_iff in O. prop.
    + apply Qle_bool_false in O. split; [discriminate|].
      intros [?|[?|[?|[[_ ?]|[[? _]|[? _]]]]]]; try prop; discriminate.
  - destruct (Qle_bool (55 # 100) _) eqn:O.
    + apply Qle_bool_iff in O. prop.
    + apply Qle_bool_false in O.
      destruct (Qle_bool (88 # 100) _) eqn:J.
      * apply Qle_bool_iff in J. prop.
      * apply Qle_bool_false in J. split; [discriminate|].
        intros [?|[?|[?|[[? _]|[[_ ?]|[_ ?]]]]]]; try prop; discriminate.
Qed.

(** ** Candidate aggregator *)

Lemma Qnat_pos (n : nat) : 0 < n -> (0 < Qnat n)%Q.
Proof.
  intros H. unfold Qnat, Qlt. simpl. lia.
Qed.

Lemma overlap_self (s : StringSet.t) :
  s <> [] -> (computeTokenOverlapRatio s s == 1)%Q.
Proof.
  intros Hs. unfold computeTokenOverlapRatio, StringSet.size.
  assert (Hlen : 0 < List.length s) by (destruct s; simpl; [congruence|lia]).
  destruct (List.length s =? 0) eqn:E; [apply Nat.eqb_eq in E; lia|]. cbn [orb].
  rewrite Nat.leb_refl.
  rewrite filter_all by (intros x Hx; apply has_In; exact Hx).
  replace (Nat.max 1 (List.length s)) with (List.length s) by lia.
  apply Qmult_inv_r. intros H. pose proof (Qnat_pos _ Hlen) as P.
  rewrite H in P. apply (Qlt_irrefl 0). exact P.
Qed.

Lemma nearDuplicate_self (e : HeadlineCandidate) (options : DedupeOptions) :
  normalizedUrl e <> "" \/ normalizedTitle e <> ""
  \/ normalizedDescription e <> "" \/ tokenSet e <> [] ->
  areHeadlinesNearDuplicate e e options = true.
Proof.
  intros H. unfold areHeadlinesNearDuplicate.
  rewrite !String.eqb_refl, !andb_true_r, !andb_diag.
  destruct (nonEmpty (normalizedUrl e)) eqn:U; [reflexivity|].
  destruct (nonEmpty (normalizedTitle e)) eqn:T; [reflexivity|].
  destruct (nonEmpty (normalizedDescription e)) eqn:D; [reflexivity|].
  apply nonEmpty_false in U, T, D.
  destruct H as [H|[H|[H|H]]]; try congruence.
  assert (O : Qle_bool (getTokenOverlapThreshold (mode options))
                (computeTokenOverlapRatio (tokenSet e) (tokenSet e)) = true).
  { apply Qle_bool_iff. rewrite (overlap_self _ H).
    unfold getTokenOverlapThreshold.
    destruct (isStrict (mode options)); discriminate. }
  rewrite O. reflexivity.
Qed.

Lemma merge_self (record : NormalizedHeadline) (options : DedupeOptions) :
  let e := createHeadlineCandidate record options in
  mergeIntoExisting e record e = withRelated e [toRelatedArticle record].
Proof.
  intros e. unfold mergeIntoExisting, withRelated. subst e. simpl.
  rewrite Nat.ltb_irrefl, andb_false_r.
  rewrite !andb_negb_r.
  rewrite addAll_present by auto. reflexivity.
Qed.

(** C2, as amended. A record that is not excluded and is fed twice to an
    empty aggregator yields exactly one cluster when its normalized URL,
    title, description or token set is not empty. The related-article list
    of that cluster is empty when the normalized URL is not empty (the
    second occurrence is recognised by its URL and discarded), and holds
    exactly the second occurrence when the normalized URL is empty. *)
Theorem feed_twice_single_cluster (record : NormalizedHeadline)
  (options : DedupeOptions) :
  let e := createHeadlineCandidate record options in
  isExcluded e options = false ->
  (normalizedUrl e <> "" -> feedTwice record options = [e])
  /\ (normalizedUrl e = "" ->
      normalizedTitle e <> "" \/ normalizedDescription e <> ""
      \/ tokenSet e <> [] ->
      feedTwice record options = [withRelated e [toRelatedArticle record]]).
Proof.
  intros e Hex. unfold feedTwice.
  assert (H1 : addHeadlineIfUnique [] record options = ([e], true)).
  { unfold addHeadlineIfUnique. fold e. rewrite Hex. reflexivity. }
  rewrite H1. cbn [fst]. unfold addHeadlineIfUnique. fold e. rewrite Hex.
  cbn [scanAggregated]. split.
  - intros Hu. rewrite nearDuplicate_self by auto.
    unfold urlAlreadyInCluster.
    change (normalizeUrlForComparison (url record)) with (normalizedUrl e).
    rewrite (proj2 (nonEmpty_true _) Hu), String.eqb_refl. reflexivity.
  - intros Hu Hn. rewrite nearDuplicate_self by prop.
    unfold urlAlreadyInCluster.
    change (normalizeUrlForComparison (url record)) with (normalizedUrl e).
    rewrite (proj2 (nonEmpty_false _) Hu). cbn [andb fst].
    unfold e. rewrite (merge_self record options). reflexivity.
Qed.

Lemma primaryPreserved_refl (candidate : NormalizedHeadline)
  (c : HeadlineCandidate) :
  primaryPreserved candidate c c.
Proof. unfold primaryPreserved. repeat split; auto; congruence. Qed.

Lemma mergeIntoExisting_preserves (existing : HeadlineCandidate)
  (candidate : NormalizedHeadline) (enriched : HeadlineCandidate) :
  primaryPreserved candidate existing
    (mergeIntoExisting existing candidate enriched).
Proof.
  destruct existing as [[t d u s p q k sq] nu nt ts nd rel].
  unfold primaryPreserved, mergeIntoExisting.
  cbn -[String.length Nat.ltb].
  destruct (nonEmpty (description candidate)
            && (String.length d <? String.length (description candidate)))
    eqn:L;
  destruct (truthy (keyword candidate));
  destruct (truthy (queryUsed candidate));
  destruct (truthy (searchQuery candidate));
  destruct (truthy k) eqn:K; destruct (truthy q) eqn:Q;
  destruct (truthy sq) eqn:S;
  repeat (progress (cbn -[String.length Nat.ltb]; rewrite ?K, ?Q, ?S));
  repeat match goal with
         | |- _ /\ _ => split
         | |- _ -> _ => intro
         end;
  try reflexivity; try discriminate; try congruence;
  try (apply andb_true_iff in L as [_ L]; apply Nat.ltb_lt in L; exact L).
Qed.

Lemma scanAggregated_preserves (aggregated : list HeadlineCandidate)
  (candidate : NormalizedHeadline) (enriched : HeadlineCandidate)
  (options : DedupeOptions) (aggregated' : list HeadlineCandidate) :
  scanAggregated aggregated candidate enriched options = Some aggregated' ->
  Forall2 (primaryPreserved candidate) aggregated aggregated'.
Proof.
  revert aggregated'.
  induction aggregated as [|existing rest IH]; simpl; intros out H;
    [discriminate|].
  assert (R : forall l, Forall2 (primaryPreserved candidate) l l).
  { induction l; constructor; auto using primaryPreserved_refl. }
  destruct (areHeadlinesNearDuplicate existing enriched options).
  - destruct (urlAlreadyInCluster existing candidate); inversion H; subst.
    + apply R.
    + constructor; [apply mergeIntoExisting_preserves|apply R].
  - destruct (scanAggregated rest candidate enriched options) as [rest'|];
      [|discriminate].
    inversion H; subst. constructor; [apply primaryPreserved_refl|auto].
Qed.

(** C7. Adding a record leaves every cluster already aggregated in its
    place with the title, url, source and publishedAt of its primary
    unchanged; a keyword, queryUsed or searchQuery that was not empty is
    kept; and the description of the primary changes only to the incoming
    description, and only when that one is strictly longer. *)
Theorem merge_preserves_primary (aggregated : list HeadlineCandidate)
  (candidate : NormalizedHeadline) (options : DedupeOptions) :
  let aggregated' := fst (addHeadlineIfUnique aggregated candidate options) in
  Forall2 (primaryPreserved candidate) aggregated
    (firstn (List.length aggregated) aggregated').
Proof.
  assert (R : forall l, Forall2 (primaryPreserved candidate) l l).
  { induction l; constructor; auto using primaryPreserved_refl. }
  cbv zeta. unfold addHeadlineIfUnique.
  destruct (isExcluded _ _); cbn [fst].
  - rewrite firstn_all. apply R.
  - destruct (scanAggregated _ _ _ _) as [out|] eqn:E; cbn [fst].
    + apply scanAggregated_preserves in E.
      rewrite (Forall2_length E), firstn_all. exact E.
    + rewrite firstn_app, Nat.sub_diag, firstn_all. simpl.
      rewrite app_nil_r. apply R.
Qed.

Lemma excluded_dropped (aggregated : list HeadlineCandidate)
  (record : NormalizedHeadline) (options : DedupeOptions)
  (excluded : StringSet.t) :
  excludedUrls options = Some excluded ->
  In (normalizeUrlForComparison (url record)) excluded ->
  normalizeUrlForComparison (url record) <> "" ->
  addHeadlineIfUnique aggregated record options = (aggregated, false).
Proof.
  intros Hs Hin Hne. unfold addHeadlineIfUnique, isExcluded. rewrite Hs.
  cbn [normalizedUrl createHeadlineCandidate].
  rewrite (proj2 (nonEmpty_true _) Hne), (proj2 (has_In _ _) Hin). reflexivity.
Qed.

Lemma excludeUrlsLoop_nonEmpty (entries normalized : list string)
  (seen : StringSet.t) :
  Forall (fun u => u <> "") normalized ->
  Forall (fun u => u <> "") (excludeUrlsLoop entries normalized seen).
Proof.
  revert normalized seen.
  induction entries as [|entry rest IH]; cbn [excludeUrlsLoop];
    intros normalized seen H; [exact H|].
  destruct (nonEmpty (trim entry)); cbn [negb]; [|auto].
  destruct (nonEmpty (normalizeUrlForComparison (trim entry))) eqn:N;
    cbn [negb]; [|auto].
  destruct (StringSet.has seen _); [auto|].
  assert (H' : Forall (fun u => u <> "")
                 (normalized ++ [normalizeUrlForComparison (trim entry)])).
  { apply Forall_app. split; [exact H|].
    constructor; [|constructor]. apply nonEmpty_true. exact N. }
  match goal with |- context [if ?c then _ else _] => destruct c end; auto.
Qed.

(** C6. In a run whose set of excluded URLs contains the normalized URL
    of a record, the aggregator returns the clusters unchanged for that
    record, so that the run aggregates as if the record had not been
    there. *)
Theorem excluded_record_dropped (dedupeMode : DedupeMode)
  (entries : list string) (aggregated : list HeadlineCandidate)
  (record : NormalizedHeadline)
  (before after : list NormalizedHeadline) :
  let options := runOptions dedupeMode entries in
  In (normalizeUrlForComparison (url record)) (normalizeExcludeUrls entries) ->
  addHeadlineIfUnique aggregated record options = (aggregated, false)
  /\ aggregateHeadlines (before ++ record :: after) options
     = aggregateHeadlines (before ++ after) options.
Proof.
  intros options Hin.
  assert (Hdrop : forall agg,
             addHeadlineIfUnique agg record options = (agg, false)).
  { intros agg.
    apply (excluded_dropped agg record options
             (StringSet.addAll [] (normalizeExcludeUrls entries))).
    - unfold options, runOptions.
      destruct (normalizeExcludeUrls entries) as [|u us] eqn:E;
        [destruct Hin|reflexivity].
    - apply addAll_In. right. exact Hin.
    - pose proof (excludeUrlsLoop_nonEmpty entries [] [] (Forall_nil _)) as F.
      rewrite Forall_forall in F. apply F. exact Hin. }
  split; [apply Hdrop|].
  unfold aggregateHeadlines. rewrite !fold_left_app. cbn [fold_left].
  rewrite Hdrop. reflexivity.
Qed.
(** ** Sorting *)

Lemma insertSorted_perm {A : Type} (cmp : A -> A -> comparison) (x : A)
  (l : list A) :
  Permutation (insertSorted cmp x l) (x :: l).
Proof.
  induction l as [|y r IH]; simpl; [apply Permutation_refl|].
  destruct (cmp x y); try apply Permutation_refl.
  eapply Permutation_trans; [apply perm_skip; exact IH|apply perm_swap].
Qed.

Lemma sortBy_perm {A : Type} (cmp : A -> A -> comparison) (l : list A) :
  Permutation (sortBy cmp l) l.
Proof.
  induction l as [|x r IH]; simpl; [constructor|].
  eapply Permutation_trans; [apply insertSorted_perm|apply perm_skip; exact IH].
Qed.

Lemma insertSorted_sorted {A : Type} (cmp : A -> A -> comparison)
  (R : A -> A -> Prop) (x : A) (l : list A) :
  (forall x y z, R x y -> R y z -> R x z) ->
  (forall x y, cmp x y <> Gt -> R x y) ->
  (forall x y, cmp x y = Gt -> R y x) ->
  StronglySorted R l -> StronglySorted R (insertSorted cmp x l).
Proof.
  intros R_trans cmp_le cmp_gt.
  induction l as [|y r IH]; simpl; intros H.
  - constructor; constructor.
  - inversion H as [|? ? Hr Hy]; subst.
    assert (Before : cmp x y <> Gt -> StronglySorted R (x :: y :: r)).
    { intros E. constructor; [exact H|].
      constructor; [apply cmp_le; exact E|].
      eapply Forall_impl; [|exact Hy].
      intros z Hz. apply (R_trans x y z); [apply cmp_le; exact E|exact Hz]. }
    destruct (cmp x y) eqn:E; try (apply Before; discriminate).
    constructor; [apply IH; exact Hr|].
    rewrite Forall_forall. intros z Hz.
    apply (Permutation_in _ (insertSorted_perm cmp x r)) in Hz.
    destruct Hz as [<-|Hz]; [apply cmp_gt; exact E|].
    rewrite Forall_forall in Hy. auto.
Qed.

Lemma sortBy_sorted {A : Type} (cmp : A -> A -> comparison)
  (R : A -> A -> Prop) (l : list A) :
  (forall x y z, R x y -> R y z -> R x z) ->
  (forall x y, cmp x y <> Gt -> R x y) ->
  (forall x y, cmp x y = Gt -> R y x) ->
  StronglySorted R (sortBy cmp l).
Proof.
  intros R_trans cmp_le cmp_gt.
  induction l as [|x r IH]; simpl; [constructor|].
  apply insertSorted_sorted; assumption.
Qed.

Lemma StronglySorted_weaken {A : Type} (R S : A -> A -> Prop) (l : list A) :
  (forall x y, In x l -> In y l -> R x y -> S x y) ->
  StronglySorted R l -> StronglySorted S l.
Proof.
  induction l as [|x r IH]; intros HRS H; [constructor|].
  inversion H as [|? ? Hr Hx]; subst. constructor.
  - apply IH; [|exact Hr]. intros; apply HRS; simpl; auto.
  - rewrite Forall_forall in *. intros y Hy. apply HRS; simpl; auto.
Qed.

Lemma StronglySorted_map {A B : Type} (f : A -> B) (R : B -> B -> Prop)
  (l : list A) :
  StronglySorted (fun a b => R (f a) (f b)) l -> StronglySorted R (map f l).
Proof.
  induction 1 as [|x r Hr IH Hx]; simpl; constructor; auto.
  rewrite Forall_forall in *. intros y Hy.
  apply in_map_iff in Hy as [z [<- Hz]]. auto.
Qed.

Lemma StronglySorted_firstn {A : Type} (R : A -> A -> Prop) (n : nat)
  (l : list A) :
  StronglySorted R l -> StronglySorted R (firstn n l).
Proof.
  intros H. revert n.
  induction H as [|x r Hr IH Hx]; intros [|n]; simpl; try constructor; auto.
  rewrite Forall_forall in *. intros y Hy. apply Hx. 
  rewrite <- (firstn_skipn n r). apply in_or_app. left. exact Hy.
Qed.

Lemma StronglySorted_distinct {A : Type} (R : A -> A -> Prop) (f : A -> nat)
  (l : list A) :
  NoDup (map f l) -> StronglySorted R l ->
  StronglySorted (fun x y => R x y /\ f x <> f y) l.
Proof.
  induction l as [|x r IH]; simpl; intros Hn H; [constructor|].
  inversion Hn as [|? ? Hx Hr]; subst. inversion H as [|? ? Hs Hf]; subst.
  constructor; [auto|]. rewrite Forall_forall in *. intros y Hy. split; [auto|].
  intros E. apply Hx. rewrite E. apply in_map. exact Hy.
Qed.

Lemma mapWithIndex_index (f : HeadlineCandidate -> nat -> ScoredCandidate)
  (l : list HeadlineCandidate) (i : nat) :
  (forall c k, index (f c k) = k) ->
  map index (mapWithIndex f l i) = seq i (List.length l).
Proof.
  intros Hf. revert i.
  induction l as [|c r IH]; simpl; intros i; [reflexivity|].
  rewrite Hf, IH. reflexivity.
Qed.

Lemma Qeq_bool_false (x y : Q) : Qeq_bool x y = false <-> ~ (x == y)%Q.
Proof.
  rewrite <- Qeq_bool_iff. destruct (Qeq_bool x y); split; congruence.
Qed.

Lemma compareAges_spec (a b : option Q) :
  match compareAges a b with
  | Some Lt => ageBefore a b
  | Some Gt => ageBefore b a
  | Some Eq => False
  | None => ageSame a b
  end.
Proof.
  destruct a as [x|], b as [y|]; simpl; auto.
  destruct (Qeq_bool x y) eqn:E; simpl.
  - apply Qeq_bool_iff. exact E.
  - apply Qeq_bool_false in E. destruct (x ?= y)%Q eqn:C.
    + apply Qeq_alt in C. contradiction.
    + apply Qlt_alt. exact C.
    + apply Qgt_alt. exact C.
Qed.

Lemma compareScored_le (x y : ScoredCandidate) :
  compareScored x y <> Gt -> inOrder x y.
Proof.
  unfold compareScored, inOrder.
  destruct (Qeq_bool (scoreOf y) (scoreOf x)) eqn:E; simpl.
  - apply Qeq_bool_iff in E. intros H. right. split; [symmetry; exact E|].
    pose proof (compareAges_spec (ageOf x) (ageOf y)) as S.
    destruct (compareAges (ageOf x) (ageOf y)) as [[| |]|]; try prop.
    right. split; [exact S|].
    destruct (Nat.compare_spec (index x) (index y)); try lia. congruence.
  - apply Qeq_bool_false in E. intros H. left.
    destruct (scoreOf y ?= scoreOf x)%Q eqn:C.
    + apply Qeq_alt in C. contradiction.
    + apply Qlt_alt. exact C.
    + congruence.
Qed.

Lemma compareScored_gt (x y : ScoredCandidate) :
  compareScored x y = Gt -> inOrder y x.
Proof.
  unfold compareScored, inOrder.
  destruct (Qeq_bool (scoreOf y) (scoreOf x)) eqn:E; simpl.
  - apply Qeq_bool_iff in E. intros H. right. split; [exact E|].
    pose proof (compareAges_spec (ageOf x) (ageOf y)) as S.
    destruct (compareAges (ageOf x) (ageOf y)) as [[| |]|];
      try discriminate; try prop.
    right. split.
    + destruct (ageOf x), (ageOf y); simpl in *; try prop. symmetry; exact S.
    + destruct (Nat.compare_spec (index x) (index y)); try lia; congruence.
  - intros H. left. apply Qgt_alt in H. exact H.
Qed.

Lemma ageBefore_trans (a b c : option Q) :
  ageBefore a b -> ageBefore b c -> ageBefore a c.
Proof. destruct a, b, c; simpl; try prop. apply Qlt_trans. Qed.

Lemma ageSame_trans (a b c : option Q) :
  ageSame a b -> ageSame b c -> ageSame a c.
Proof. destruct a, b, c; simpl; try prop. apply Qeq_trans. Qed.

Lemma ageBefore_same (a b c : option Q) :
  ageBefore a b -> ageSame b c -> ageBefore a c.
Proof.
  destruct a, b, c; simpl; try prop. intros H E. rewrite <- E. exact H.
Qed.

Lemma ageSame_before (a b c : option Q) :
  ageSame a b -> ageBefore b c -> ageBefore a c.
Proof. destruct a, b, c; simpl; try prop. intros E H. rewrite E. exact H. Qed.

Lemma inOrder_trans (x y z : ScoredCandidate) :
  inOrder x y -> inOrder y z -> inOrder x z.
Proof.
  unfold inOrder. intros [Hxy|[Exy Hxy]] [Hyz|[Eyz Hyz]].
  - left. lra.
  - left. lra.
  - left. lra.
  - right. split; [lra|].
    destruct Hxy as [Bxy|[Sxy Ixy]], Hyz as [Byz|[Syz Iyz]].
    + left. eapply ageBefore_trans; eauto.
    + left. eapply ageBefore_same; eauto.
    + left. eapply ageSame_before; eauto.
    + right. split; [eapply ageSame_trans; eauto|lia].
Qed.

(** ** Ranker: order *)

Lemma mapWithIndex_arrival (f : HeadlineCandidate -> nat -> ScoredCandidate)
  (l : list HeadlineCandidate) (i : nat) (s : ScoredCandidate) :
  (forall c k, index (f c k) = k) ->
  (forall c k, candidate (ranked (f c k)) = c) ->
  In s (mapWithIndex f l i) ->
  i <= index s /\ nth_error l (index s - i) = Some (candidate (ranked s)).
Proof.
  intros Hi Hc. revert i.
  induction l as [|c r IH]; simpl; intros i H; [destruct H|].
  destruct H as [<-|H].
  - rewrite Hi, Hc, Nat.sub_diag. split; [lia|reflexivity].
  - apply IH in H as [Hle Hn]. split; [lia|].
    replace (index s - i) with (S (index s - S i)) by lia. exact Hn.
Qed.

Lemma scoreCandidate_index (clock : nat -> Z) (f : Counter.t * Counter.t)
  (c : HeadlineCandidate) (i : nat) :
  index (scoreCandidate clock f c i) = i.
Proof.
  unfold scoreCandidate. destruct f as [sf tf].
  destruct (computeRecencyScore _ _) as [r a].
  destruct (computeTopicCoverageScore _ _) as [t tr].
  destruct (computeClusterSupportScore c) as [[cs sz] us].
  reflexivity.
Qed.

Lemma scoreCandidate_candidate (clock : nat -> Z) (f : Counter.t * Counter.t)
  (c : HeadlineCandidate) (i : nat) :
  candidate (ranked (scoreCandidate clock f c i)) = c.
Proof.
  unfold scoreCandidate. destruct f as [sf tf].
  destruct (computeRecencyScore _ _) as [r a].
  destruct (computeTopicCoverageScore _ _) as [t tr].
  destruct (computeClusterSupportScore c) as [[cs sz] us].
  reflexivity.
Qed.

Lemma scoreCandidates_index (clock : nat -> Z)
  (candidates : list HeadlineCandidate) :
  map index (scoreCandidates clock candidates) = seq 0 (List.length candidates).
Proof.
  unfold scoreCandidates. apply mapWithIndex_index.
  intros c k. apply scoreCandidate_index.
Qed.

Lemma sortScored_sorted (clock : nat -> Z)
  (candidates : list HeadlineCandidate) :
  StronglySorted (fun x y => inOrder x y /\ index x <> index y)
    (sortScored clock candidates).
Proof.
  apply StronglySorted_distinct.
  - unfold sortScored.
    apply (Permutation_NoDup
             (l := map index (scoreCandidates clock candidates))).
    + apply Permutation_map. apply Permutation_sym. apply sortBy_perm.
    + rewrite scoreCandidates_index. apply seq_NoDup.
  - unfold sortScored.
    apply sortBy_sorted;
      [exact inOrder_trans|exact compareScored_le|exact compareScored_gt].
Qed.

(** A list has at most one arrangement that is ordered by a relation no
    two elements satisfy both ways. *)
Lemma sorted_arrangement_unique {A : Type} (R : A -> A -> Prop)
  (l1 l2 : list A) :
  (forall x y, R x y -> R y x -> False) ->
  StronglySorted R l1 -> StronglySorted R l2 -> Permutation l1 l2 ->
  l1 = l2.
Proof.
  intros Hasym H1. revert l2.
  induction H1 as [|x r1 Hr1 IH Hx]; intros l2 H2 Hp.
  - apply Permutation_nil in Hp. symmetry. exact Hp.
  - destruct H2 as [|y r2 Hr2 Hy].
    + apply Permutation_sym, Permutation_nil in Hp. discriminate Hp.
    + assert (E : x = y).
      { assert (Ix : In x (y :: r2))
          by (apply (Permutation_in _ Hp); left; reflexivity).
        assert (Iy : In y (x :: r1))
          by (apply (Permutation_in _ (Permutation_sym Hp)); left; reflexivity).
        destruct Ix as [Ex|Ix]; [symmetry; exact Ex|].
        destruct Iy as [Ey|Iy]; [exact Ey|].
        rewrite Forall_forall in Hx, Hy.
        destruct (Hasym x y (Hx y Iy) (Hy x Ix)). }
      subst y. f_equal. apply IH; [exact Hr2|].
      apply (Permutation_cons_inv Hp).
Qed.

Lemma inOrder_antisym (x y : ScoredCandidate) :
  inOrder x y -> inOrder y x -> index x = index y.
Proof.
  unfold inOrder. intros [Hxy|[Exy Hxy]] [Hyx|[Eyx Hyx]]; try lra.
  destruct (ageOf x) as [ax|], (ageOf y) as [ay|]; simpl in *;
    destruct Hxy as [Bxy|[Sxy Ixy]], Hyx as [Byx|[Syx Iyx]];
    try contradiction; try lra; lia.
Qed.

(** Whatever procedure [sort] follows, a result that is a rearrangement
    of [scored] ordered by the comparator is the list [sortScored]. *)
Lemma sortScored_unique (clock : nat -> Z)
  (candidates : list HeadlineCandidate)
  (sorted : list ScoredCandidate) :
  Permutation sorted (scoreCandidates clock candidates) ->
  StronglySorted (fun x y => compareScored x y <> Gt) sorted ->
  sorted = sortScored clock candidates.
Proof.
  intros Hp Hs.
  apply (sorted_arrangement_unique
           (fun x y => inOrder x y /\ index x <> index y)).
  - intros x y [Hxy Hne] [Hyx _]. apply Hne.
    apply inOrder_antisym; assumption.
  - apply StronglySorted_distinct.
    + apply (Permutation_NoDup
               (l := map index (scoreCandidates clock candidates))).
      * apply Permutation_map. apply Permutation_sym. exact Hp.
      * rewrite scoreCandidates_index. apply seq_NoDup.
    + eapply StronglySorted_weaken; [|exact Hs].
      intros x y _ _ H. apply compareScored_le. exact H.
  - apply sortScored_sorted.
  - unfold sortScored. eapply Permutation_trans; [exact Hp|].
    apply Permutation_sym. apply sortBy_perm.
Qed.

Lemma sortScored_arrival (clock : nat -> Z)
  (candidates : list HeadlineCandidate)
  (s : ScoredCandidate) :
  In s (sortScored clock candidates) ->
  nth_error candidates (index s) = Some (candidate (ranked s)).
Proof.
  intros H. unfold sortScored in H.
  apply (Permutation_in _ (sortBy_perm compareScored _)) in H.
  unfold scoreCandidates in H.
  apply mapWithIndex_arrival in H as [_ H].
  - rewrite Nat.sub_0_r in H. exact H.
  - intros c k. apply scoreCandidate_index.
  - intros c k. apply scoreCandidate_candidate.
Qed.

(** C4, as amended. Of two ranked clusters with equal total scores, the
    one standing first is the one with the smaller age when both ages are
    known and differ, the one whose age is known when the other age is
    unknown, and the one that arrived first when the ages are equal or both
    unknown. The index of a ranked cluster is its position of arrival. *)
Theorem tie_break_order (clock : nat -> Z)
  (candidates : list HeadlineCandidate) :
  StronglySorted tieOrder (sortScored clock candidates)
  /\ rankHeadlineCandidates clock candidates
     = map ranked (sortScored clock candidates)
  /\ Forall
       (fun s => nth_error candidates (index s) = Some (candidate (ranked s)))
       (sortScored clock candidates).
Proof.
  split; [|split].
  - eapply StronglySorted_weaken; [|apply sortScored_sorted].
    intros x y _ _ [[Hlt|[_ H]] Hne] E; [lra|].
    destruct (ageOf x) as [ax|], (ageOf y) as [ay|]; simpl in H.
    + destruct H as [H|[H Hi]].
      * split; [lra|]. intros; lra.
      * split; [lra|]. intros; lia.
    + exact I.
    + destruct H as [[]|[[] _]].
    + destruct H as [[]|[_ Hi]]. lia.
  - destruct candidates; reflexivity.
  - apply Forall_forall. intros s Hs.
    apply (sortScored_arrival clock). exact Hs.
Qed.

Lemma resolveLimit_range (numeric : option Q) :
  (MIN_LIMIT <= resolveLimit numeric <= MAX_LIMIT)%Z.
Proof.
  unfold resolveLimit, MIN_LIMIT, MAX_LIMIT, DEFAULT_LIMIT.
  destruct numeric; lia.
Qed.

Lemma rank_as_sorted (clock : nat -> Z)
  (candidates : list HeadlineCandidate) :
  rankHeadlineCandidates clock candidates
  = map ranked (sortScored clock candidates).
Proof. destruct candidates; reflexivity. Qed.

Lemma mapWithIndex_In {A B : Type} (f : A -> nat -> B) (l : list A) (i : nat)
  (y : B) :
  In y (mapWithIndex f l i) -> exists x k, In x l /\ y = f x k.
Proof.
  revert i. induction l as [|x r IH]; simpl; intros i H; [prop|].
  destruct H as [<-|H].
  - exists x, i. auto.
  - apply IH in H as [x' [k [Hx ->]]]. exists x', k. auto.
Qed.

Lemma mapWithIndex_map {A B C : Type} (f : A -> nat -> B) (g : B -> C)
  (l : list A) (i : nat) :
  (forall x k, g (f x k) = (fun a => a) (g (f x 0))) ->
  map g (mapWithIndex f l i) = map (fun x => g (f x 0)) l.
Proof.
  intros H. revert i. induction l as [|x r IH]; simpl; intros i; [reflexivity|].
  rewrite IH, (H x i). reflexivity.
Qed.

Lemma rank_candidates_perm (clock : nat -> Z)
  (candidates : list HeadlineCandidate) :
  Permutation (map candidate (rankHeadlineCandidates clock candidates))
    candidates.
Proof.
  rewrite rank_as_sorted, map_map. unfold sortScored.
  eapply Permutation_trans.
  - apply Permutation_map. apply sortBy_perm.
  - unfold scoreCandidates.
    rewrite (mapWithIndex_map _ (fun s => candidate (ranked s))).
    + rewrite (map_ext _ (fun x => x));
        [rewrite map_id; apply Permutation_refl|].
      intros c. apply scoreCandidate_candidate.
    + intros. rewrite !scoreCandidate_candidate. reflexivity.
Qed.

(** C3. For a limit that is not negative, as the resolved limit of a
    request always is, the response has at most [limit] entries, is sorted
    by descending total score, and is the first [limit] entries of the
    ranking of all aggregated clusters: every cluster is scored and ranked
    before the list is cut. *)
Theorem response_truncated_after_ranking (clock : nat -> Z)
  (aggregated : list HeadlineCandidate) (limit : Z) :
  (0 <= limit)%Z ->
  let out := headlineEntries clock aggregated limit in
  (Z.of_nat (List.length out) <= limit)%Z
  /\ StronglySorted byDescendingScore out
  /\ out = firstn (Z.to_nat limit)
             (buildHeadlineResponses (rankHeadlineCandidates clock aggregated))
  /\ Permutation (map candidate (rankHeadlineCandidates clock aggregated))
       aggregated.
Proof.
  intros Hlimit out.
  assert (Hout : out = firstn (Z.to_nat limit)
             (buildHeadlineResponses
                (rankHeadlineCandidates clock aggregated))).
  { unfold out, headlineEntries, sliceFromStart.
    destruct (Z.ltb_spec limit 0); [lia|].
    unfold buildHeadlineResponses. rewrite firstn_map. reflexivity. }
  split; [|split; [|split]].
  - rewrite Hout. rewrite length_firstn. lia.
  - rewrite Hout. apply StronglySorted_firstn.
    unfold buildHeadlineResponses. apply StronglySorted_map.
    rewrite rank_as_sorted. apply StronglySorted_map.
    eapply StronglySorted_weaken; [|apply sortScored_sorted].
    intros x y _ _ [H _]. unfold byDescendingScore. cbn [entryRanking].
    unfold inOrder, scoreOf in H. destruct H as [H|[H _]]; lra.
  - exact Hout.
  - apply rank_candidates_perm.
Qed.

(** ** Ranker: the clock *)

Lemma mapWithIndex_ext_nth {A B : Type} (f g : A -> nat -> B) (l : list A)
  (i : nat) :
  (forall x k, nth_error l k = Some x -> f x (i + k) = g x (i + k)) ->
  mapWithIndex f l i = mapWithIndex g l i.
Proof.
  revert i. induction l as [|x r IH]; simpl; intros i H; [reflexivity|].
  f_equal.
  - specialize (H x 0 eq_refl). rewrite Nat.add_0_r in H. exact H.
  - apply IH. intros y k Hy. specialize (H y (S k) Hy).
    rewrite Nat.add_succ_r in H. exact H.
Qed.

(** C9, as amended. Two runs on the same records and options give the
    same response whenever the clock gives every cluster primary the same
    recency score and age in both, in particular when both runs read the
    same clock values; aggregation does not read the clock. *)
Theorem same_recency_same_output (clock1 clock2 : nat -> Z)
  (records : list NormalizedHeadline) (options : DedupeOptions)
  (limit : option Q) :
  (forall i c, nth_error (aggregateHeadlines records options) i = Some c ->
     computeRecencyScore (clock1 i) (publishedAt (data c))
     = computeRecencyScore (clock2 i) (publishedAt (data c))) ->
  rankAndDeduplicate clock1 records options limit
  = rankAndDeduplicate clock2 records options limit.
Proof.
  intros H. unfold rankAndDeduplicate, headlineEntries.
  set (aggregated := aggregateHeadlines records options) in *.
  assert (E : scoreCandidates clock1 aggregated
              = scoreCandidates clock2 aggregated).
  { unfold scoreCandidates. apply mapWithIndex_ext_nth. intros c k Hc.
    unfold scoreCandidate. cbn [Nat.add]. rewrite (H k c Hc). reflexivity. }
  rewrite !rank_as_sorted. unfold sortScored. rewrite E. reflexivity.
Qed.

(** ** Ranker: bounds of the score *)

Lemma Qnat_le (m n : nat) : m <= n -> (Qnat m <= Qnat n)%Q.
Proof. intros H. unfold Qnat, Qle. simpl. lia. Qed.

Lemma ratio_unit (u n : nat) :
  u <= n -> 0 < n -> unitInterval (Qnat u / Qnat n).
Proof.
  intros Hu Hn. pose proof (Qnat_pos n Hn) as Pn.
  pose proof (Qnat_le 0 u (Nat.le_0_l u)) as P0.
  pose proof (Qnat_le u n Hu) as Pu.
  split.
  - apply Qle_shift_div_l; [exact Pn|]. change (Qnat 0) with 0%Q in P0. lra.
  - apply Qle_shift_div_r; [exact Pn|]. lra.
Qed.

Lemma recency_unit (now : Z) (publishedAt : string) :
  unitInterval (fst (computeRecencyScore now publishedAt)).
Proof.
  unfold computeRecencyScore, unitInterval.
  destruct (negb (nonEmpty publishedAt)); [simpl; lra|].
  destruct (dateParse publishedAt) as [parsed|]; [|simpl; lra].
  cbn [fst].
  set (age := Qmax 0 _).
  assert (H0 : (0 <= age)%Q) by apply Q.le_max_l.
  assert (H1 : (Qmin age 72 <= 72)%Q) by apply Q.le_min_r.
  assert (H2 : (0 <= Qmin age 72)%Q) by (apply Q.min_glb; [exact H0|lra]).
  set (clamped := Qmin age 72) in *.
  assert (D : (clamped / 72 == clamped * (1 # 72))%Q) by reflexivity.
  rewrite D. lra.
Qed.

Lemma sourceDiversity_unit (occurrences : nat) :
  unitInterval (computeSourceDiversityScore occurrences).
Proof.
  unfold computeSourceDiversityScore.
  destruct (Nat.leb_spec occurrences 0); [split; lra|].
  change 1%Q with (Qnat 1). apply ratio_unit; lia.
Qed.

Lemma topicCoverage_unit (tokens : StringSet.t) (frequency : Counter.t) :
  unitInterval (fst (computeTopicCoverageScore tokens frequency)).
Proof.
  unfold computeTopicCoverageScore.
  destruct (StringSet.size tokens =? 0); [split; simpl; lra|].
  cbn [fst]. apply ratio_unit; [|lia].
  unfold StringSet.size.
  pose proof (filter_length_le
                (fun token => Counter.getOr frequency token 0 <=? 1) tokens).
  lia.
Qed.

Lemma clusterSources_nonEmpty (c : HeadlineCandidate) :
  1 <= StringSet.size (clusterSources c).
Proof.
  unfold clusterSources, StringSet.size.
  assert (G : forall l s, 1 <= List.length s ->
    1 <= List.length (fold_left (fun sources article =>
       StringSet.add sources (sourceKeyOf (Related.source article))) l s)).
  { induction l as [|a l IH]; simpl; intros s Hs; [exact Hs|].
    apply IH. pose proof (add_length s (sourceKeyOf (Related.source a))). lia. }
  apply G. reflexivity.
Qed.

Lemma clusterSupport_unit (c : HeadlineCandidate) :
  unitInterval (fst (fst (computeClusterSupportScore c))).
Proof.
  unfold computeClusterSupportScore. cbn [fst].
  change (CLUSTER_SIZE_FULL_SCORE <=? 1)%Z with false.
  change (CLUSTER_SOURCES_FULL_SCORE <=? 1)%Z with false.
  cbv iota.
  set (size := Nat.max 1 _).
  set (uniqueSources := StringSet.size _).
  assert (Hs : (1 <= Qnat size)%Q)
    by (change 1%Q with (Qnat 1); apply Qnat_le; lia).
  assert (Hu : (1 <= Qnat uniqueSources)%Q).
  { change 1%Q with (Qnat 1). apply Qnat_le. apply clusterSources_nonEmpty. }
  set (a := ((Qnat size - 1) / (inject_Z CLUSTER_SIZE_FULL_SCORE - 1))%Q).
  set (b := ((Qnat uniqueSources - 1)
             / (inject_Z CLUSTER_SOURCES_FULL_SCORE - 1))%Q).
  assert (Ha : (0 <= a)%Q).
  { unfold a. apply Qle_shift_div_l; [reflexivity|]. lra. }
  assert (Hb : (0 <= b)%Q).
  { unfold b. apply Qle_shift_div_l; [reflexivity|]. lra. }
  assert (Ha' : (0 <= Qmin 1 a)%Q) by (apply Q.min_glb; [lra|exact Ha]).
  assert (Hb' : (0 <= Qmin 1 b)%Q) by (apply Q.min_glb; [lra|exact Hb]).
  split.
  - apply Q.min_glb; [lra|].
    apply Qle_shift_div_l; [reflexivity|]. lra.
  - apply Q.le_min_l.
Qed.

Lemma scoreCandidate_bounds (clock : nat -> Z) (f : Counter.t * Counter.t)
  (c : HeadlineCandidate) (i : nat) :
  withinBounds (ranking (ranked (scoreCandidate clock f c i))).
Proof.
  unfold scoreCandidate. destruct f as [sf tf].
  pose proof (recency_unit (clock i) (publishedAt (data c))) as Hr.
  pose proof (sourceDiversity_unit
                (Counter.getOr sf (sourceKeyOf (source (data c))) 1)) as Hs.
  pose proof (topicCoverage_unit (tokenSet c) tf) as Ht.
  pose proof (clusterSupport_unit c) as Hc.
  destruct (computeRecencyScore _ _) as [r a].
  destruct (computeTopicCoverageScore _ _) as [t tr].
  destruct (computeClusterSupportScore c) as [[cs sz] us].
  cbn [fst] in *. unfold withinBounds, weightedSum, unitInterval in *.
  cbn [ranking ranked score components recency sourceDiversity topicCoverage
       clusterSupport].
  unfold RANKING_RECENCY_WEIGHT, RANKING_SOURCE_WEIGHT, RANKING_TOPIC_WEIGHT,
    RANKING_CLUSTER_WEIGHT.
  repeat split; try prop; try lra.
Qed.

Lemma ranked_bounds (clock : nat -> Z)
  (candidates : list HeadlineCandidate)
  (r : RankedHeadlineCandidate) :
  In r (rankHeadlineCandidates clock candidates) -> withinBounds (ranking r).
Proof.
  rewrite rank_as_sorted. intros H. apply in_map_iff in H as [s [<- Hs]].
  unfold sortScored in Hs.
  apply (Permutation_in _ (sortBy_perm compareScored _)) in Hs.
  unfold scoreCandidates in Hs.
  apply mapWithIndex_In in Hs as [c [k [_ ->]]].
  apply scoreCandidate_bounds.
Qed.
End Engine.

(** * Worked examples on the sample platform *)

(** The scenario of the repository's tests: the two "AI testing" stories
    stay apart in default mode and are merged in strict mode. *)
Example strict_mode_merges_stemmed_titles :
  let first :=
    headline "AI testing leaps ahead"
      "A new AI testing framework leaps ahead in clinical trials."
      "https://example.com/ai-testing-leaps" "Tech Source"
      "2024-07-01T10:00:00Z" in
  let second :=
    headline "AI tests leap ahead"
      "Latest AI tests leap ahead amid new frameworks and trials."
      "https://example.com/ai-tests-leap" "Science Daily"
      "2024-07-01T12:00:00Z" in
  map (fun c => (url (data c), List.length (related c)))
    (aggregateHeadlines sampleParseUrl [first; second] defaultOptions)
  = [("https://example.com/ai-testing-leaps", 0);
     ("https://example.com/ai-tests-leap", 0)]
  /\ map (fun c => (url (data c), map Related.url (related c)))
       (aggregateHeadlines sampleParseUrl [first; second] strictOptions)
     = [("https://example.com/ai-testing-leaps",
         ["https://example.com/ai-tests-leap"])].
Proof. split; vm_compute; reflexivity. Qed.

(** The scenario of the specification: the same title up to case and
    punctuation gives one cluster, whose primary is the first record. *)
Example same_title_merges_into_first :
  map (fun c => (source (data c), map Related.source (related c)))
    (aggregateHeadlines sampleParseUrl
       [headline "Mars rover finds water" "" "" "A" "";
        headline "Mars Rover Finds Water!!" "" "" "B" ""] defaultOptions)
  = [("A", ["B"])].
Proof. vm_compute. reflexivity. Qed.

(** The threshold is inclusive: seven tokens in ten are enough in default
    mode, six in ten are not; eleven in twenty are enough in strict mode,
    ten in twenty are not. *)
Example overlap_threshold_boundary :
  let tokens (l : list string) :=
    mkHeadlineCandidate (headline "" "" "" "" "") "" "" l "" [] in
  let ten := ["a0"; "a1"; "a2"; "a3"; "a4"; "a5"; "a6"; "a7"; "a8"; "a9"] in
  let twenty := (ten ++ map (fun t => t ++ "x")%string ten)%list in
  areHeadlinesNearDuplicate (tokens ten)
    (tokens (firstn 7 ten ++ ["b1"; "b2"; "b3"])) defaultOptions = true
  /\ areHeadlinesNearDuplicate (tokens ten)
       (tokens (firstn 6 ten ++ ["b1"; "b2"; "b3"; "b4"])) defaultOptions
     = false
  /\ areHeadlinesNearDuplicate (tokens twenty)
       (tokens (firstn 11 twenty
                ++ map (fun t => t ++ "y")%string (skipn 11 twenty)))
       strictOptions = true
  /\ areHeadlinesNearDuplicate (tokens twenty)
       (tokens (firstn 10 twenty
                ++ map (fun t => t ++ "y")%string (skipn 10 twenty)))
       strictOptions = false.
Proof. repeat split; vm_compute; reflexivity. Qed.

(** C5: the token [dies] is not collapsed to [dy], since it has only four
    characters, and its stem is [die]. *)
Lemma stem_collapse_counterexample :
  tokenStem "dies" = "die" /\ specStem "dies" = "dy"
  /\ ~ (forall token, tokenStem token = specStem token).
Proof.
  assert (Code : tokenStem "dies" = "die") by (vm_compute; reflexivity).
  assert (Spec : specStem "dies" = "dy") by (vm_compute; reflexivity).
  split; [exact Code|]. split; [exact Spec|].
  intros H. specialize (H "dies"). rewrite Code, Spec in H. discriminate H.
Qed.

(** C8: the similarity of the empty string with itself is 0. *)
Lemma jaro_winkler_empty_counterexample :
  computeJaroWinklerSimilarity "" "" = 0%Q
  /\ ~ (forall a b : string, a = b -> computeJaroWinklerSimilarity a b = 1%Q).
Proof.
  split; [reflexivity|].
  intros H. specialize (H "" "" eq_refl). discriminate H.
Qed.

Lemma jaro_winkler_extremes_witness :
  computeJaroWinklerSimilarity "mars" "mars" = 1%Q
  /\ computeJaroWinklerSimilarity "abc" "xyz" = 0%Q.
Proof.
  split.
  - apply (proj1 (jaro_winkler_extremes "mars" "mars"));
      [reflexivity|discriminate].
  - apply (proj2 (jaro_winkler_extremes "abc" "xyz")).
    intros c Ha Hb. simpl in Ha, Hb.
    repeat (destruct Ha as [Ha|Ha];
            [subst c;
             repeat (destruct Hb as [Hb|Hb]; [discriminate Hb|]);
             exact Hb|]).
    exact Ha.
Defined.

(** C2: a record with a URL, fed twice, leaves a cluster with no related
    article. *)
Lemma feed_twice_related_counterexample :
  map (fun c => List.length (related c))
    (feedTwice sampleParseUrl marsRecord defaultOptions) = [0]
  /\ ~ (exists c,
          feedTwice sampleParseUrl marsRecord defaultOptions = [c]
          /\ related c = [toRelatedArticle marsRecord]).
Proof.
  split; [vm_compute; reflexivity|].
  intros [c [Hc Hr]].
  assert (E : map (fun c => List.length (related c))
                (feedTwice sampleParseUrl marsRecord defaultOptions) = [0])
    by (vm_compute; reflexivity).
  rewrite Hc in E. simpl in E. rewrite Hr in E. discriminate E.
Qed.

Lemma feed_twice_single_cluster_witness :
  feedTwice sampleParseUrl marsRecord defaultOptions
  = [createHeadlineCandidate sampleParseUrl marsRecord defaultOptions]
  /\ feedTwice sampleParseUrl marsNoUrl defaultOptions
     = [withRelated
          (createHeadlineCandidate sampleParseUrl marsNoUrl defaultOptions)
          [toRelatedArticle marsNoUrl]].
Proof.
  split.
  - apply (proj1 (feed_twice_single_cluster sampleParseUrl marsRecord
                    defaultOptions eq_refl)).
    vm_compute. discriminate.
  - apply (proj2 (feed_twice_single_cluster sampleParseUrl marsNoUrl
                    defaultOptions eq_refl)).
    + reflexivity.
    + left. vm_compute. discriminate.
Defined.

Lemma excluded_record_dropped_witness :
  addHeadlineIfUnique sampleParseUrl [] marsRecord
    (runOptions sampleParseUrl Default ["https://X.com/a/"])
  = ([], false)
  /\ aggregateHeadlines sampleParseUrl
       ([undatedRecord] ++ marsRecord :: [datedRecord])
       (runOptions sampleParseUrl Default ["https://X.com/a/"])
     = aggregateHeadlines sampleParseUrl ([undatedRecord] ++ [datedRecord])
         (runOptions sampleParseUrl Default ["https://X.com/a/"]).
Proof.
  apply (excluded_record_dropped sampleParseUrl Default ["https://X.com/a/"]
           [] marsRecord [undatedRecord] [datedRecord]).
  vm_compute. left. reflexivity.
Defined.

(** C4: with equal scores, the cluster that arrived second stands first
    because its age is known and that of the first is not. *)
Lemma tie_break_unknown_age_counterexample :
  let sorted :=
    sortScored sampleDateParse (steady sampleLater)
      (aggregateHeadlines sampleParseUrl [undatedRecord; datedRecord]
         defaultOptions) in
  map (fun s => (index s, title (data (candidate (ranked s))))) sorted
  = [(1, "Delta epsilon zeta"); (0, "Alpha beta gamma")]
  /\ ~ StronglySorted specTieOrder sorted.
Proof.
  cbv zeta. split; [vm_compute; reflexivity|].
  destruct (sortScored _ _ _) as [|x [|y l]] eqn:E;
    try (vm_compute in E; discriminate E).
  vm_compute in E. inversion E; subst. clear E.
  intros H. inversion H as [|? ? _ F]; subst.
  inversion F as [|? ? C _]; subst. clear - C.
  unfold specTieOrder in C. cbn in C.
  assert (K : 1 < 0) by (apply C; reflexivity). lia.
Qed.

(** C9: the same records ranked at two clock readings come out in a
    different order. *)
Lemma clock_changes_output_counterexample :
  let records :=
    [datedRecord; supportedRecord "c.example/1" "C";
     supportedRecord "d.example/1" "D"] in
  let run clock :=
    rankAndDeduplicate sampleParseUrl sampleDateParse clock records
      defaultOptions None in
  map entryTitle (run (steady sampleNow))
  = ["Delta epsilon zeta"; "Kappa lambda sigma"]
  /\ map entryTitle (run (steady sampleLater))
     = ["Kappa lambda sigma"; "Delta epsilon zeta"]
  /\ run (steady sampleNow) <> run (steady sampleLater).
Proof.
  cbv zeta.
  assert (A : map entryTitle
                (rankAndDeduplicate sampleParseUrl sampleDateParse
                   (steady sampleNow)
                   [datedRecord; supportedRecord "c.example/1" "C";
                    supportedRecord "d.example/1" "D"] defaultOptions None)
              = ["Delta epsilon zeta"; "Kappa lambda sigma"])
    by (vm_compute; reflexivity).
  assert (B : map entryTitle
                (rankAndDeduplicate sampleParseUrl sampleDateParse
                   (steady sampleLater)
                   [datedRecord; supportedRecord "c.example/1" "C";
                    supportedRecord "d.example/1" "D"] defaultOptions None)
              = ["Kappa lambda sigma"; "Delta epsilon zeta"])
    by (vm_compute; reflexivity).
  split; [exact A|]. split; [exact B|].
  intros E. rewrite E, B in A. discriminate A.
Qed.

Lemma same_recency_same_output_witness :
  rankAndDeduplicate sampleParseUrl sampleDateParse (steady sampleNow)
    [undatedRecord; marsNoUrl] defaultOptions None
  = rankAndDeduplicate sampleParseUrl sampleDateParse (ticking sampleLater)
      [undatedRecord; marsNoUrl] defaultOptions None.
Proof.
  apply same_recency_same_output.
  intros i c Hc.
  destruct i as [|[|i]]; vm_compute in Hc;
    [inversion Hc; reflexivity|inversion Hc; reflexivity|].
  destruct i; discriminate Hc.
Defined.

Lemma response_truncated_after_ranking_witness :
  let out :=
    headlineEntries sampleDateParse (steady sampleNow)
      (aggregateHeadlines sampleParseUrl
         [undatedRecord; datedRecord; marsNoUrl] defaultOptions)
      (resolveLimit (Some (2 # 1)%Q)) in
  (Z.of_nat (List.length out) <= 2)%Z
  /\ map entryTitle out = ["Delta epsilon zeta"; "Alpha beta gamma"].
Proof.
  cbv zeta. split.
  - apply (response_truncated_after_ranking sampleDateParse
             (steady sampleNow)
             (aggregateHeadlines sampleParseUrl
                [undatedRecord; datedRecord; marsNoUrl] defaultOptions)
             (resolveLimit (Some (2 # 1)%Q))).
    vm_compute. discriminate.
  - vm_compute. reflexivity.
Defined.

(** C10. Each of the four components of a ranked cluster lies between 0
    and 1, the total score is their sum weighted by 0.45, 0.20, 0.20 and
    0.25 and lies between 0 and 1.1, and a total score above 1 occurs. *)
Theorem ranking_score_bounds :
  (forall (dateParse : string -> option Z) (clock : nat -> Z)
          (candidates : list HeadlineCandidate) (r : RankedHeadlineCandidate),
      In r (rankHeadlineCandidates dateParse clock candidates) ->
      withinBounds (ranking r))
  /\ (exists r,
        In r (rankHeadlineCandidates sampleDateParse (steady wireNow)
                (aggregateHeadlines sampleParseUrl wireRecords defaultOptions))
        /\ (1 < score (ranking r))%Q).
Proof.
  split; [exact ranked_bounds|].
  destruct (rankHeadlineCandidates _ _ _) as [|r l] eqn:E;
    [vm_compute in E; discriminate E|].
  exists r. split; [left; reflexivity|].
  vm_compute in E. inversion E; subst. vm_compute. reflexivity.
Qed.

Lemma ranking_score_bounds_witness :
  match
    rankHeadlineCandidates sampleDateParse (steady wireNow)
      (aggregateHeadlines sampleParseUrl wireRecords defaultOptions)
  with
  | r :: _ => withinBounds (ranking r)
  | [] => False
  end.
Proof.
  destruct (rankHeadlineCandidates _ _ _) as [|r l] eqn:E;
    [vm_compute in E; discriminate E|].
  apply (proj1 ranking_score_bounds sampleDateParse (steady wireNow)
           (aggregateHeadlines sampleParseUrl wireRecords defaultOptions) r).
  rewrite E. left. reflexivity.
Defined.
